(** * Cyclic pipeline scheduler: model and properties

    Shallow embedding of the scheduling loop that both front-ends of the
    repository share: [schedule_optimization.py], lines 37-95 (module level),
    and [schedule_optimization_v1.py], lines 16-65 (inside
    [run_simulation]).  The two loops are textually the same algorithm.

    Modelling decisions.
    - Numbers.  The source computes in Python floats, that is in binary64
      ([last_clean_end] starts from [0.0], the widgets of the app return
      floats).  The loop is embedded twice, statement for statement.  In
      module [B64] every number is a primitive float and [+] and [-] are
      the rounded operations of the hardware: this is the program's own
      arithmetic.  At top level every number is an exact rational ([Q],
      numeric equality [==]): this is the loop without rounding error,
      which is what the floats compute as long as no operation rounds
      (on small integers, for instance).  The structure of a build, the
      lookups that fail, and the shift as a maximum are studied on the
      exact model; what rests on a sum undoing a difference is settled
      in [B64].
    - Python dictionaries are [gmap string _]; [d[k]] on a missing key
      raises [KeyError], modelled by [lookup_key].
    - The global list [schedule] and the dictionary [last_clean_end] form
      the mutable [state]; the loop bodies live in a state-and-exception
      monad [M] that keeps the state reached when an exception is raised.
    - The number of cycles is an input of the loop ([num_cycles : Z]). *)

From Corelib Require Import PrimFloat.
From Stdlib Require Import QArith Qminmax Lqa Ascii.
From stdpp Require Import gmap strings list fin_maps pretty sorting.

Open Scope Q_scope.

(* Decimal literals stand for the nearest binary64 value, as in Python. *)
Set Warnings "-inexact-float".

(** ** Data *)

(** One entry of the [steps] dictionary. *)
Record step_info := StepInfo {
  setup : Q;
  operation : Q;
  cleaning : Q;
  tanks : list string
}.

(** One entry of the per-cycle [pipeline_times] dictionary. *)
Record times := Times {
  setup_start : Q;
  setup_end : Q;
  op_start : Q;
  op_end : Q;
  clean_start : Q;
  clean_end : Q
}.

(** One dictionary appended to [schedule]. *)
Record interval := Interval {
  task : string;
  start : Q;
  end_ : Q;
  row : string
}.

(** The three inputs of the loop. *)
Record config := Config {
  step_order : list string;
  steps : gmap string step_info;
  tank_cleaning_time : gmap string Q
}.

(** The two mutable globals. *)
Record state := State {
  schedule : list interval;
  last_clean_end : gmap string Q
}.

(** ** Exceptions and the monads *)

Inductive exn := KeyError (key : string).

Inductive result (A : Type) :=
  | Ok (a : A)
  | Raise (e : exn).
Arguments Ok {A} a.
Arguments Raise {A} e.

Global Instance result_ret : MRet result := @Ok.
Global Instance result_bind : MBind result := λ A B f r,
  match r with
  | Ok a => f a
  | Raise e => Raise e
  end.
Global Instance result_fmap : FMap result := λ A B f r,
  match r with
  | Ok a => Ok (f a)
  | Raise e => Raise e
  end.

(** [d[k]] *)
Definition lookup_key {V} (d : gmap string V) (k : string) : result V :=
  match d !! k with
  | Some v => Ok v
  | None => Raise (KeyError k)
  end.

(** Left-to-right loop with an accumulator, stopping at the first
    exception. *)
Fixpoint foldM {A B} (f : A → B → result A) (a : A) (l : list B) : result A :=
  match l with
  | [] => Ok a
  | x :: l' => a' ← f a x; foldM f a' l'
  end.

Definition M (A : Type) : Type := state → result A * state.

Global Instance M_ret : MRet M := λ A a st, (Ok a, st).
Global Instance M_bind : MBind M := λ A B f m st,
  match m st with
  | (Ok a, st') => f a st'
  | (Raise e, st') => (Raise e, st')
  end.

Definition lift {A} (r : result A) : M A := λ st, (r, st).

(** [schedule.append(iv)] *)
Definition append (iv : interval) : M unit := λ st,
  (Ok (), State (schedule st ++ [iv]) (last_clean_end st)).

(** [last_clean_end[step] = v] *)
Definition set_last_clean_end (step : string) (v : Q) : M unit := λ st,
  (Ok (), State (schedule st) (<[step := v]> (last_clean_end st))).

Definition get_last_clean_end : M (gmap string Q) := λ st,
  (Ok (last_clean_end st), st).

(** [for x in l: body(x)] *)
Fixpoint for_each {A} (l : list A) (body : A → M unit) : M unit :=
  match l with
  | [] => mret ()
  | x :: l' => body x;; for_each l' body
  end.

(** ** Python primitives *)

(** [a > b] *)
Definition gtb (a b : Q) : bool :=
  match a ?= b with
  | Gt => true
  | _ => false
  end.

(** [max(a, b)]: the first argument is kept unless the second is strictly
    larger. *)
Definition py_max (a b : Q) : Q := if gtb b a then b else a.

(** [range(a, b)] *)
Definition range (a b : Z) : list Z := seqZ a (b - a).

(** ** Step 1: ideal pipeline times of one cycle (lines 44-62) *)

Definition ideal_times (prev_op_end : Q) (info : step_info) : times :=
  let setup_start := prev_op_end - setup info in
  let setup_end := setup_start + setup info in
  let op_start := setup_end in
  let op_end := op_start + operation info in
  let clean_start := op_end in
  let clean_end := clean_start + cleaning info in
  Times setup_start setup_end op_start op_end clean_start clean_end.

(** Body of the loop; the accumulator is [(pipeline_times, prev_op_end)]. *)
Definition pipeline_step (cfg : config) (acc : gmap string times * Q)
    (step : string) : result (gmap string times * Q) :=
  info ← lookup_key (steps cfg) step;
  let t := ideal_times acc.2 info in
  Ok (<[step := t]> acc.1, op_end t).

Definition pipeline_times (cfg : config) : result (gmap string times) :=
  fst <$> foldM (pipeline_step cfg) (∅, 0) (step_order cfg).

(** ** Step 2: the shift of the cycle (lines 64-70) *)

Definition shift_step (last_clean_end : gmap string Q)
    (pipeline_times : gmap string times) (shift : Q) (step : string) : result Q :=
  l ← lookup_key last_clean_end step;
  t ← lookup_key pipeline_times step;
  let required_shift := py_max 0 (l - setup_start t) in
  Ok (if gtb required_shift shift then required_shift else shift).

Definition shift (order : list string) (last_clean_end : gmap string Q)
    (pipeline_times : gmap string times) : result Q :=
  foldM (shift_step last_clean_end pipeline_times) 0 order.

(** ** Step 3: emitting the tasks of the cycle (lines 72-95) *)

(** The four dictionary literals (lines 84-86 and 92). *)
Definition setup_task (step : string) (cycle : Z) (s e : Q) : interval :=
  {| task := step +:+ " Setup (Cycle " +:+ pretty cycle +:+ ")";
     start := s; end_ := e; row := step |}.

Definition operation_task (step : string) (cycle : Z) (s e : Q) : interval :=
  {| task := step +:+ " Operation (Cycle " +:+ pretty cycle +:+ ")";
     start := s; end_ := e; row := step |}.

Definition cleaning_task (step : string) (cycle : Z) (s e : Q) : interval :=
  {| task := step +:+ " Cleaning (Cycle " +:+ pretty cycle +:+ ")";
     start := s; end_ := e; row := step |}.

Definition tank_task (tank : string) (cycle : Z) (s e : Q) : interval :=
  {| task := tank +:+ " Cleaning (Cycle " +:+ pretty cycle +:+ ")";
     start := s; end_ := e; row := tank |}.

(** Body of the inner loop over [info['tanks']]. *)
Definition schedule_tank (cfg : config) (cycle : Z) (setup_start : Q)
    (tank : string) : M unit :=
  let t_start := setup_start in
  d ← lift (lookup_key (tank_cleaning_time cfg) tank);
  let t_end := t_start + d in
  append (tank_task tank cycle t_start t_end).

(** Body of the loop over [step_order]. *)
Definition schedule_step (cfg : config) (cycle : Z)
    (pipeline_times : gmap string times) (shift : Q) (step : string) : M unit :=
  info ← lift (lookup_key (steps cfg) step);
  times ← lift (lookup_key pipeline_times step);
  let setup_start := setup_start times + shift in
  let setup_end := setup_end times + shift in
  let op_start := op_start times + shift in
  let op_end := op_end times + shift in
  let clean_start := clean_start times + shift in
  let clean_end := clean_end times + shift in
  append (setup_task step cycle setup_start setup_end);;
  append (operation_task step cycle op_start op_end);;
  append (cleaning_task step cycle clean_start clean_end);;
  for_each (tanks info) (schedule_tank cfg cycle setup_start);;
  set_last_clean_end step clean_end.

(** ** The cycle loop (line 42) *)

Definition run_cycle (cfg : config) (cycle : Z) : M unit :=
  pt ← lift (pipeline_times cfg);
  lce ← get_last_clean_end;
  sh ← lift (shift (step_order cfg) lce pt);
  for_each (step_order cfg) (schedule_step cfg cycle pt sh).

(** [schedule = []] and [last_clean_end = {s: 0.0 for s in step_order}] *)
Definition initial_state (cfg : config) : state :=
  State [] (foldl (λ d s, <[s := 0]> d) ∅ (step_order cfg)).

Definition build (cfg : config) (num_cycles : Z) : result () * state :=
  for_each (range 1 (num_cycles + 1)) (run_cycle cfg) (initial_state cfg).

(** ** Observations on a build *)

(** The tracker after [n] cycles. *)
Definition tracker (cfg : config) (n : Z) : gmap string Q :=
  last_clean_end (build cfg n).2.

(** The shift that cycle [c] computes. *)
Definition cycle_shift (cfg : config) (c : Z) : result Q :=
  pt ← pipeline_times cfg;
  shift (step_order cfg) (tracker cfg (c - 1)) pt.

(** Number of dictionaries one step appends in a cycle. *)
Definition block_len (cfg : config) (step : string) : nat :=
  match steps cfg !! step with
  | Some info => 3 + length (tanks info)
  | None => 0
  end.

Definition cycle_len (cfg : config) : nat :=
  sum_list (block_len cfg <$> step_order cfg).

(** Position in [schedule] of the first dictionary appended by the [i]-th
    step of cycle [c]. *)
Definition task_index (cfg : config) (c : Z) (i : nat) : nat :=
  Z.to_nat (c - 1) * cycle_len cfg + sum_list (block_len cfg <$> take i (step_order cfg)).

(** The [k]-th dictionary appended by the [i]-th step of cycle [c] in a
    build with [n] cycles: 0 Setup, 1 Operation, 2 Cleaning, [3 + j] the
    cleaning of the [j]-th tank. *)
Definition emitted (cfg : config) (n c : Z) (i k : nat) : option interval :=
  schedule (build cfg n).2 !! (task_index cfg c i + k)%nat.

(** ** Valid configurations *)

Definition nonneg (q : Q) : bool := Qle_bool 0 q.

Definition valid_step (cfg : config) (step : string) : bool :=
  match steps cfg !! step with
  | Some info =>
      nonneg (setup info) && nonneg (operation info) && nonneg (cleaning info)
      && forallb (λ tank, match tank_cleaning_time cfg !! tank with
                          | Some d => nonneg d
                          | None => false
                          end) (tanks info)
  | None => false
  end.

(** Step ids are distinct, every declared step is defined, every attached
    tank is in the table, and no duration is negative.  [steps] has one
    entry per id, so an id repeated in [step_order] would name one step
    twice; see [repeated_step_id] below for what the loop does then. *)
Definition valid_config (cfg : config) : bool :=
  bool_decide (NoDup (step_order cfg)) && forallb (valid_step cfg) (step_order cfg).

(** ** The configuration of the scenario of two steps *)

Definition scenario : config :=
  Config ["A"; "B"]
    (<["A" := StepInfo 3 5 1 []]> (<["B" := StepInfo 2 4 1 []]> ∅))
    ∅.


(** ** What one step appends in one cycle

    The dictionaries that one pass through the body of the Step 3 loop
    appends when none of its lookups fails, as a function of the cycle's
    [pipeline_times] and [shift]. *)

Definition tank_interval (cfg : config) (cycle : Z) (t_start : Q)
    (tank : string) : interval :=
  tank_task tank cycle t_start (t_start + default 0 (tank_cleaning_time cfg !! tank)).

Definition step_block (cfg : config) (cycle : Z) (pt : gmap string times)
    (sh : Q) (step : string) : list interval :=
  match steps cfg !! step, pt !! step with
  | Some info, Some t =>
      setup_task step cycle (setup_start t + sh) (setup_end t + sh)
      :: operation_task step cycle (op_start t + sh) (op_end t + sh)
      :: cleaning_task step cycle (clean_start t + sh) (clean_end t + sh)
      :: (tank_interval cfg cycle (setup_start t + sh) <$> tanks info)
  | _, _ => []
  end.

(** A step of the order whose lookups all succeed. *)
Definition step_ready (cfg : config) (pt : gmap string times) (step : string) : Prop :=
  ∃ info t, steps cfg !! step = Some info ∧ pt !! step = Some t ∧
    ∀ tank, tank ∈ tanks info → is_Some (tank_cleaning_time cfg !! tank).

(** Every step of the order has an entry in the tracker. *)
Definition tracked (cfg : config) (lce : gmap string Q) : Prop :=
  ∀ s, s ∈ step_order cfg → is_Some (lce !! s).

(** ** The shift as the specification words it

    [required = max(0, lastCleanEnd[step] - setup_start[step])] for each
    step, and [shift = max(required over all steps, 0)], with the
    mathematical maximum [Qmax]; an unseen step reads as 0. *)

Definition required_spec (lce : gmap string Q) (pt : gmap string times)
    (step : string) : Q :=
  Qmax 0 (default 0 (lce !! step) - from_option setup_start 0 (pt !! step)).

Definition shift_spec (order : list string) (lce : gmap string Q)
    (pt : gmap string times) : Q :=
  foldr (λ step acc, Qmax (required_spec lce pt step) acc) 0 order.

(** ** Further configurations *)

(** The module-level configuration of [schedule_optimization.py]
    (lines 5-22). *)
Definition plant : config :=
  Config ["A"; "B"; "C"; "D"; "E"; "F"]
    (<["A" := StepInfo 10 5 2 ["Tank1"; "Tank2"]]>
     (<["B" := StepInfo 3 10 (3 # 2) ["Tank3"; "Tank4"]]>
      (<["C" := StepInfo 5 14 2 ["Tank5"; "Tank6"]]>
       (<["D" := StepInfo 2 8 1 ["Tank1"; "Tank2"]]>
        (<["E" := StepInfo 3 9 (3 # 2) ["Tank3"; "Tank4"]]>
         (<["F" := StepInfo 4 11 2 ["Tank5"; "Tank6"]]> ∅))))))
    (<["Tank1" := 3]>
     (<["Tank2" := 5 # 2]>
      (<["Tank3" := 2]>
       (<["Tank4" := 2]>
        (<["Tank5" := 3]>
         (<["Tank6" := 5 # 2]> ∅)))))).

(** Two steps that attach the same tank. *)
Definition shared_tank : config :=
  Config ["A"; "B"]
    (<["A" := StepInfo 3 1 0 ["T"]]> (<["B" := StepInfo 2 1 0 ["T"]]> ∅))
    (<["T" := 5]> ∅).

(** A step that attaches a tank missing from [tank_cleaning_time]. *)
Definition unknown_tank : config :=
  Config ["A"] (<["A" := StepInfo 3 5 1 ["T"]]> ∅) ∅.

(** An order that names the same step twice. *)
Definition repeated : config :=
  Config ["A"; "A"] (<["A" := StepInfo 1 5 1 []]> ∅) ∅.

(** ** Configurations with an unknown resource *)

Definition references_unknown_resource (cfg : config) : Prop :=
  ∃ s info tank,
    s ∈ step_order cfg ∧ steps cfg !! s = Some info ∧
    tank ∈ tanks info ∧ tank_cleaning_time cfg !! tank = None.

(** Every declared step has an entry in [steps]. *)
Definition steps_defined (cfg : config) : bool :=
  forallb (λ s, bool_decide (is_Some (steps cfg !! s))) (step_order cfg).

(** Every tank of the list has an entry in [tank_cleaning_time]. *)
Definition tanks_known (cfg : config) (l : list string) : bool :=
  forallb (λ tank, bool_decide (is_Some (tank_cleaning_time cfg !! tank))) l.

Definition step_tanks_known (cfg : config) (s : string) : bool :=
  match steps cfg !! s with
  | Some info => tanks_known cfg (tanks info)
  | None => false
  end.

(** ** Durations of the steps (line 15) *)

(** [values['setup'] + values['operation'] + values['cleaning']] *)
Definition step_duration (values : step_info) : Q :=
  setup values + operation values + cleaning values.

(** [step_durations = {step: ... for step, values in steps.items()}] *)
Definition step_durations (steps : gmap string step_info) : gmap string Q :=
  step_duration <$> steps.

(** A configuration whose order names a step that [steps] lacks. *)
Definition undefined_step : config :=
  Config ["A"; "B"] (<["A" := StepInfo 3 5 1 []]> ∅) ∅.

(** ** The front end: number of cycles (lines 15-17 and 27-33 of
    [schedule_optimization.py], lines 5-13 of [run_simulation])

    Written with exact rationals like the loop above: the two quotients
    are exact here and rounded to binary64 in the source, and [int] of
    an infinite or undefined quotient raises there.  The number that
    [num_cycles] returns is therefore not studied; the properties of
    [run_simulation] below hold for whatever number it returns. *)

(** The exceptions the front end can meet. *)
Inductive py_exn :=
  | ValueError
  | ZeroDivisionError
  | IndexError
  | PyKeyError (key : string).

Inductive outcome (A : Type) :=
  | Returns (a : A)
  | Throws (e : py_exn).
Arguments Returns {A} a.
Arguments Throws {A} e.

Global Instance outcome_ret : MRet outcome := @Returns.
Global Instance outcome_bind : MBind outcome := λ A B f r,
  match r with
  | Returns a => f a
  | Throws e => Throws e
  end.

(** [min(l)]: the first smallest element; [ValueError] on an empty
    sequence. *)
Definition py_min (l : list Q) : outcome Q :=
  match l with
  | [] => Throws ValueError
  | x :: l' => Returns (foldl (λ m y, if gtb m y then y else m) x l')
  end.

(** [min(step_durations.values())].  The values are visited in the order
    of [map_to_list]; the smallest value does not depend on the order up
    to [==]. *)
Definition min_step_duration (steps : gmap string step_info) : outcome Q :=
  py_min ((map_to_list (step_durations steps)).*2).

(** [a / b] *)
Definition true_div (a b : Q) : outcome Q :=
  if Qeq_bool b 0 then Throws ZeroDivisionError else Returns (a / b).

(** [int(q)]: truncation towards zero. *)
Definition py_int (q : Q) : Z := Z.quot (Qnum q) (Z.pos (Qden q)).

(** [cadence = int(bioreactor_days / num_of_bioreactors)] *)
Definition cadence (bioreactor_days num_of_bioreactors : Q) : outcome Z :=
  q ← true_div bioreactor_days num_of_bioreactors;
  Returns (py_int q).

(** [num_cycles = int(cadence * 24 / min_step_duration)], after the two
    statements it depends on, in the order of the source. *)
Definition num_cycles (steps : gmap string step_info)
    (bioreactor_days num_of_bioreactors : Q) : outcome Z :=
  min_step_duration ← min_step_duration steps;
  cadence ← cadence bioreactor_days num_of_bioreactors;
  q ← true_div (inject_Z cadence * 24) min_step_duration;
  Returns (py_int q).

(** [run_simulation] up to the end of the cycle loop (lines 5-65): the
    list [schedule] that the chart is drawn from. *)
Definition run_simulation (cfg : config)
    (bioreactor_days num_of_bioreactors : Q) : outcome (list interval) :=
  num_cycles ← num_cycles (steps cfg) bioreactor_days num_of_bioreactors;
  match build cfg num_cycles with
  | (Ok _, st) => Returns (schedule st)
  | (Raise (KeyError key), _) => Throws (PyKeyError key)
  end.

(** ** The rows of the chart (line 98; line 70 of [run_simulation]) *)

(** The sort key [(r not in step_order, r)]. *)
Definition row_key (step_order : list string) (r : string) : bool * string :=
  (bool_decide (r ∉ step_order), r).

(** Order of two such keys: [False] sorts before [True], and equal flags
    leave the decision to the strings, compared character by character. *)
Definition key_le (k1 k2 : bool * string) : Prop :=
  match k1.1, k2.1 with
  | false, true => True
  | true, false => False
  | _, _ => String.le k1.2 k2.2
  end.

Definition row_le (step_order : list string) (a b : string) : Prop :=
  key_le (row_key step_order a) (row_key step_order b).

Global Instance row_le_dec (step_order : list string) : RelDecision (row_le step_order).
Proof.
  intros a b. unfold row_le, key_le.
  destruct (row_key step_order a).1, (row_key step_order b).1; apply _.
Defined.

(** [sorted(set(item['row'] for item in schedule), key=...)].  The set is
    listed in the order of first occurrence; sorting by a key that tells
    any two rows apart makes that order immaterial. *)
Definition rows (step_order : list string) (schedule : list interval) : list string :=
  merge_sort (row_le step_order) (remove_dups (row <$> schedule)).

(** Every lookup of the cycle loop finds its key: every step of the order
    has an entry in [steps] and every tank it attaches has an entry in
    [tank_cleaning_time]. *)
Definition lookups_ok (cfg : config) : bool :=
  forallb (step_tanks_known cfg) (step_order cfg).

(** ** Drawing the bars (lines 102-117; lines 76-112 of [run_simulation])

    Strings are sequences of bytes.  ['Tank' in s] is substring search,
    which on bytes is what Python does on text.  [s.split()] cuts at runs
    of white space; [py_isspace] lists the white-space characters below
    128, so the model is Python's on names made of such characters. *)

Fixpoint all_chars (p : ascii → bool) (s : string) : bool :=
  match s with
  | "" => true
  | String a s' => p a && all_chars p s'
  end.

(** Tab, line feed, vertical tab, form feed, carriage return, the four
    separators 28-31 and the space. *)
Definition py_isspace (a : ascii) : bool :=
  let n := N_of_ascii a in
  ((9 <=? n)%N && (n <=? 13)%N) || ((28 <=? n)%N && (n <=? 32)%N).

(** A character below 128. *)
Definition is_ascii (a : ascii) : bool := (N_of_ascii a <? 128)%N.

(** A visible character below 128. *)
Definition is_graph (a : ascii) : bool :=
  let n := N_of_ascii a in
  (33 <=? n)%N && (n <=? 126)%N.

Fixpoint starts_with (needle s : string) : bool :=
  match needle, s with
  | "", _ => true
  | String _ _, "" => false
  | String a needle', String b s' => Ascii.eqb a b && starts_with needle' s'
  end.

(** [needle in s] *)
Fixpoint contains (needle s : string) : bool :=
  starts_with needle s ||
  match s with
  | "" => false
  | String _ s' => contains needle s'
  end.

(** [s.split()], with the word being read in [cur]. *)
Fixpoint split_go (cur : option string) (s : string) : list string :=
  match s with
  | "" => option_list cur
  | String a s' =>
      if py_isspace a
      then option_list cur ++ split_go None s'
      else split_go (Some (default "" cur +:+ String a "")) s'
  end.

Definition split_ws (s : string) : list string := split_go None s.

(** [l[1]] *)
Definition second (l : list string) : outcome string :=
  match l !! 1%nat with
  | Some w => Returns w
  | None => Throws IndexError
  end.

(** The dictionary [colors] (lines 102-107). *)
Definition colors : gmap string string :=
  <["Setup" := "lightblue"]>
  (<["Operation" := "lightgreen"]>
   (<["Cleaning" := "salmon"]>
    (<["Tank Cleaning" := "gray"]> ∅))).

(** [ttype] (lines 111-114). *)
Definition task_type (task : string) : outcome string :=
  if contains "Tank" task then Returns "Tank Cleaning"
  else second (split_ws task).

(** [colors[ttype]] (line 116). *)
Definition bar_color (task : string) : outcome string :=
  ttype ← task_type task;
  match colors !! ttype with
  | Some c => Returns c
  | None => Throws (PyKeyError ttype)
  end.

(** [(color, task_name)] in [run_simulation] (lines 80-93). *)
Definition legend_entry (task : string) : outcome (string * string) :=
  if contains "Tank" task then Returns ("gray", "Tank")
  else
    color_type ← second (split_ws task);
    if String.eqb color_type "Setup" then Returns ("lightblue", "Setup")
    else if String.eqb color_type "Operation" then Returns ("lightgreen", "Operation")
    else Returns ("salmon", "Cleaning").

(** The arguments of one [go.Bar] that depend on the schedule. *)
Record trace := Trace {
  trace_y : string;
  trace_x : Q;
  trace_base : Q;
  trace_color : string;
  trace_name : string;
  trace_showlegend : bool
}.

(** The loop over [schedule] in [run_simulation] (lines 76-112), with the
    set [added_to_legend] as its state. *)
Fixpoint add_traces (added_to_legend : gset string) (schedule : list interval)
    : outcome (list trace) :=
  match schedule with
  | [] => Returns []
  | item :: schedule' =>
      '(color, task_name) ← legend_entry (task item);
      let show_legend := bool_decide (task_name ∉ added_to_legend) in
      let added_to_legend :=
        if show_legend then {[task_name]} ∪ added_to_legend else added_to_legend in
      rest ← add_traces added_to_legend schedule';
      Returns (Trace (row item) (end_ item - start item) (start item)
                     color task_name show_legend :: rest)
  end.

Definition traces (schedule : list interval) : outcome (list trace) :=
  add_traces ∅ schedule.

(** The task of the interval is a name followed by one of the three
    labels of the cycle loop. *)
Definition labelled (iv : interval) : Prop :=
  ∃ (name kind : string) (c : Z),
    kind ∈ ["Setup"; "Operation"; "Cleaning"] ∧
    task iv = name +:+ String " " (kind +:+ " (Cycle " +:+ pretty c +:+ ")").

(** A computation that only appends intervals satisfying [P]. *)
Definition keeps (P : interval → Prop) {A} (m : M A) : Prop :=
  ∀ st, Forall P (schedule st) → Forall P (schedule (m st).2).

(** The trace drawn for an interval sits on its row, starts where it
    starts and is as long as it lasts. *)
Definition draws (iv : interval) (tr : trace) : Prop :=
  trace_y tr = row iv ∧ trace_x tr = end_ iv - start iv ∧ trace_base tr = start iv.

(** A name that is not empty and made of visible characters below 128. *)
Definition name_ok (name : string) : bool :=
  negb (String.eqb name "") && all_chars is_graph name.

(** Every step of the order and every tank attached to one has such a
    name. *)
Definition names_ok (cfg : config) : bool :=
  forallb (λ s, name_ok s &&
                match steps cfg !! s with
                | Some info => forallb name_ok (tanks info)
                | None => true
                end) (step_order cfg).

(** The task of the interval is one of the three labels after a name that
    [name_ok] accepts. *)
Definition well_named (iv : interval) : Prop :=
  ∃ (name kind : string) (c : Z),
    name_ok name = true ∧
    kind ∈ ["Setup"; "Operation"; "Cleaning"] ∧
    task iv = name +:+ String " " (kind +:+ " (Cycle " +:+ pretty c +:+ ")").

(** ** The form of the app (lines 141-161 of [schedule_optimization_v1.py])

    The values the widgets return are inputs: [number_input] and
    [text_input] give the value of the widget with a given key.
    [strip] removes the white space of [py_isspace], which is Python's on
    texts of characters below 128. *)

(** [s.split(sep)] for a separator of one character. *)
Fixpoint split_on (sep : ascii) (s : string) : list string :=
  match s with
  | "" => [""]
  | String a s' =>
      if Ascii.eqb a sep then "" :: split_on sep s'
      else match split_on sep s' with
           | w :: ws => String a w :: ws
           | [] => [String a ""]
           end
  end.

Fixpoint lstrip (s : string) : string :=
  match s with
  | "" => ""
  | String a s' => if py_isspace a then lstrip s' else s
  end.

Fixpoint rstrip (s : string) : string :=
  match s with
  | "" => ""
  | String a s' =>
      match rstrip s' with
      | "" => if py_isspace a then "" else String a ""
      | r => String a r
      end
  end.

(** [s.strip()] *)
Definition strip (s : string) : string := rstrip (lstrip s).

(** [[t.strip() for t in tanks.split(",") if t.strip()]] *)
Definition parse_tanks (tanks : string) : list string :=
  filter (λ t, t ≠ "") (strip <$> split_on "," tanks).

(** The loop that fills [steps] (lines 144-153). *)
Definition app_steps (number_input : string → Q) (text_input : string → string)
    (step_order : list string) : gmap string step_info :=
  foldl (λ steps step,
           <[step := StepInfo (number_input (step +:+ "_setup"))
                              (number_input (step +:+ "_operation"))
                              (number_input (step +:+ "_cleaning"))
                              (parse_tanks (text_input (step +:+ "_tanks")))]> steps)
        ∅ step_order.

(** [sorted({tank for s in steps.values() for tank in s["tanks"]})] *)
Definition all_tanks (steps : gmap string step_info) : list string :=
  merge_sort String.le (remove_dups (flat_map tanks (map_to_list steps).*2)).

(** The loop that fills [tank_cleaning_time] (lines 157-161). *)
Definition app_tank_cleaning_time (number_input : string → Q)
    (steps : gmap string step_info) : gmap string Q :=
  foldl (λ d tank, <[tank := number_input (tank +:+ "_time")]> d) ∅ (all_tanks steps).

(** The three arguments the app passes on to [run_simulation]. *)
Definition app_config (order_text : string) (number_input : string → Q)
    (text_input : string → string) : config :=
  let step_order := split_on "," order_text in
  let steps := app_steps number_input text_input step_order in
  Config step_order steps (app_tank_cleaning_time number_input steps).

(** The text whose pieces are [l], with [sep] between them. *)
Fixpoint join_with (sep : ascii) (l : list string) : string :=
  match l with
  | [] => ""
  | [w] => w
  | w :: l' => w +:+ String sep (join_with sep l')
  end.

Fixpoint last_char (s : string) : option ascii :=
  match s with
  | "" => None
  | String a "" => Some a
  | String _ s' => last_char s'
  end.

Definition first_char (s : string) : option ascii :=
  match s with
  | "" => None
  | String a _ => Some a
  end.

(** * The cycle loop in the program's own arithmetic

    The loop of lines 37-95 once more, statement by statement, with every
    number a binary64 float and every [+] and [-] the rounded operation of
    the hardware, which is what Python's [float] computes.  The integer
    literals of lines 45, 65 and 67 ([prev_op_end = 0], [shift = 0],
    [max(0, ...)]) only ever meet floats here, and Python converts them to
    [0.0] for each operation, so they are written [0.0].  Comparisons are
    those of IEEE 754: [nan] is neither larger nor smaller than anything,
    and [0.0 == -0.0]. *)

Module B64.



Record step_info := StepInfo {
  setup : float;
  operation : float;
  cleaning : float;
  tanks : list string
}.

Record times := Times {
  setup_start : float;
  setup_end : float;
  op_start : float;
  op_end : float;
  clean_start : float;
  clean_end : float
}.

Record interval := Interval {
  task : string;
  start : float;
  end_ : float;
  row : string
}.

Record config := Config {
  step_order : list string;
  steps : gmap string step_info;
  tank_cleaning_time : gmap string float
}.

Record state := State {
  schedule : list interval;
  last_clean_end : gmap string float
}.

Definition M (A : Type) : Type := state → result A * state.

Global Instance M_ret : MRet M := λ A a st, (Ok a, st).
Global Instance M_bind : MBind M := λ A B f m st,
  match m st with
  | (Ok a, st') => f a st'
  | (Raise e, st') => (Raise e, st')
  end.

Definition lift {A} (r : result A) : M A := λ st, (r, st).

(** [schedule.append(iv)] *)
Definition append (iv : interval) : M unit := λ st,
  (Ok (), State (schedule st ++ [iv]) (last_clean_end st)).

(** [last_clean_end[step] = v] *)
Definition set_last_clean_end (step : string) (v : float) : M unit := λ st,
  (Ok (), State (schedule st) (<[step := v]> (last_clean_end st))).

Definition get_last_clean_end : M (gmap string float) := λ st,
  (Ok (last_clean_end st), st).

(** [for x in l: body(x)] *)
Fixpoint for_each {A} (l : list A) (body : A → M unit) : M unit :=
  match l with
  | [] => mret ()
  | x :: l' => body x;; for_each l' body
  end.

(** [a > b] *)
Definition gtb (a b : float) : bool := (b <? a)%float.

(** [max(a, b)]: the first argument is kept unless the second is strictly
    larger. *)
Definition py_max (a b : float) : float := if gtb b a then b else a.

(** Step 1 (lines 44-62). *)
Definition ideal_times (prev_op_end : float) (info : step_info) : times :=
  let setup_start := (prev_op_end - setup info)%float in
  let setup_end := (setup_start + setup info)%float in
  let op_start := setup_end in
  let op_end := (op_start + operation info)%float in
  let clean_start := op_end in
  let clean_end := (clean_start + cleaning info)%float in
  Times setup_start setup_end op_start op_end clean_start clean_end.

Definition pipeline_step (cfg : config) (acc : gmap string times * float)
    (step : string) : result (gmap string times * float) :=
  info ← lookup_key (steps cfg) step;
  let t := ideal_times acc.2 info in
  Ok (<[step := t]> acc.1, op_end t).

Definition pipeline_times (cfg : config) : result (gmap string times) :=
  fst <$> foldM (pipeline_step cfg) (∅, 0%float) (step_order cfg).

(** Step 2 (lines 64-70). *)
Definition shift_step (last_clean_end : gmap string float)
    (pipeline_times : gmap string times) (shift : float) (step : string) :
    result float :=
  l ← lookup_key last_clean_end step;
  t ← lookup_key pipeline_times step;
  let required_shift := py_max 0%float (l - setup_start t)%float in
  Ok (if gtb required_shift shift then required_shift else shift).

Definition shift (order : list string) (last_clean_end : gmap string float)
    (pipeline_times : gmap string times) : result float :=
  foldM (shift_step last_clean_end pipeline_times) 0%float order.

(** Step 3 (lines 72-95). *)
Definition setup_task (step : string) (cycle : Z) (s e : float) : interval :=
  {| task := step +:+ " Setup (Cycle " +:+ pretty cycle +:+ ")";
     start := s; end_ := e; row := step |}.

Definition operation_task (step : string) (cycle : Z) (s e : float) : interval :=
  {| task := step +:+ " Operation (Cycle " +:+ pretty cycle +:+ ")";
     start := s; end_ := e; row := step |}.

Definition cleaning_task (step : string) (cycle : Z) (s e : float) : interval :=
  {| task := step +:+ " Cleaning (Cycle " +:+ pretty cycle +:+ ")";
     start := s; end_ := e; row := step |}.

Definition tank_task (tank : string) (cycle : Z) (s e : float) : interval :=
  {| task := tank +:+ " Cleaning (Cycle " +:+ pretty cycle +:+ ")";
     start := s; end_ := e; row := tank |}.

Definition schedule_tank (cfg : config) (cycle : Z) (setup_start : float)
    (tank : string) : M unit :=
  let t_start := setup_start in
  d ← lift (lookup_key (tank_cleaning_time cfg) tank);
  let t_end := (t_start + d)%float in
  append (tank_task tank cycle t_start t_end).

Definition schedule_step (cfg : config) (cycle : Z)
    (pipeline_times : gmap string times) (shift : float) (step : string) : M unit :=
  info ← lift (lookup_key (steps cfg) step);
  times ← lift (lookup_key pipeline_times step);
  let setup_start := (setup_start times + shift)%float in
  let setup_end := (setup_end times + shift)%float in
  let op_start := (op_start times + shift)%float in
  let op_end := (op_end times + shift)%float in
  let clean_start := (clean_start times + shift)%float in
  let clean_end := (clean_end times + shift)%float in
  append (setup_task step cycle setup_start setup_end);;
  append (operation_task step cycle op_start op_end);;
  append (cleaning_task step cycle clean_start clean_end);;
  for_each (tanks info) (schedule_tank cfg cycle setup_start);;
  set_last_clean_end step clean_end.

(** The cycle loop (line 42). *)
Definition run_cycle (cfg : config) (cycle : Z) : M unit :=
  pt ← lift (pipeline_times cfg);
  lce ← get_last_clean_end;
  sh ← lift (shift (step_order cfg) lce pt);
  for_each (step_order cfg) (schedule_step cfg cycle pt sh).

(** [schedule = []] and [last_clean_end = {s: 0.0 for s in step_order}] *)
Definition initial_state (cfg : config) : state :=
  State [] (foldl (λ d s, <[s := 0%float]> d) ∅ (step_order cfg)).

Definition build (cfg : config) (num_cycles : Z) : result () * state :=
  for_each (range 1 (num_cycles + 1)) (run_cycle cfg) (initial_state cfg).

(** The tracker after [n] cycles. *)
Definition tracker (cfg : config) (n : Z) : gmap string float :=
  last_clean_end (build cfg n).2.

(** The shift that cycle [c] computes. *)
Definition cycle_shift (cfg : config) (c : Z) : result float :=
  pt ← pipeline_times cfg;
  shift (step_order cfg) (tracker cfg (c - 1)) pt.

(** Number of dictionaries one step appends in a cycle. *)
Definition block_len (cfg : config) (step : string) : nat :=
  match steps cfg !! step with
  | Some info => 3 + length (tanks info)
  | None => 0
  end.

Definition cycle_len (cfg : config) : nat :=
  sum_list (block_len cfg <$> step_order cfg).

(** Position in [schedule] of the first dictionary appended by the [i]-th
    step of cycle [c]. *)
Definition task_index (cfg : config) (c : Z) (i : nat) : nat :=
  Z.to_nat (c - 1) * cycle_len cfg + sum_list (block_len cfg <$> take i (step_order cfg)).

(** The [k]-th dictionary appended by the [i]-th step of cycle [c] in a
    build with [n] cycles: 0 Setup, 1 Operation, 2 Cleaning, [3 + j] the
    cleaning of the [j]-th tank. *)
Definition emitted (cfg : config) (n c : Z) (i k : nat) : option interval :=
  schedule (build cfg n).2 !! (task_index cfg c i + k)%nat.

(** Every lookup of the cycle loop finds its key. *)
Definition lookups_ok (cfg : config) : bool :=
  forallb (λ s, match steps cfg !! s with
                | Some info =>
                    forallb (λ tank, bool_decide (is_Some (tank_cleaning_time cfg !! tank)))
                      (tanks info)
                | None => false
                end) (step_order cfg).

(** The dictionaries one pass through the body of the Step 3 loop appends
    when none of its lookups fails. *)
Definition tank_interval (cfg : config) (cycle : Z) (t_start : float)
    (tank : string) : interval :=
  tank_task tank cycle t_start
    (t_start + default 0%float (tank_cleaning_time cfg !! tank))%float.

Definition step_block (cfg : config) (cycle : Z) (pt : gmap string times)
    (sh : float) (step : string) : list interval :=
  match steps cfg !! step, pt !! step with
  | Some info, Some t =>
      setup_task step cycle (setup_start t + sh)%float (setup_end t + sh)%float
      :: operation_task step cycle (op_start t + sh)%float (op_end t + sh)%float
      :: cleaning_task step cycle (clean_start t + sh)%float (clean_end t + sh)%float
      :: (tank_interval cfg cycle (setup_start t + sh)%float <$> tanks info)
  | _, _ => []
  end.

(** A step of the order whose lookups all succeed. *)
Definition step_ready (cfg : config) (pt : gmap string times) (step : string) : Prop :=
  ∃ info t, steps cfg !! step = Some info ∧ pt !! step = Some t ∧
    ∀ tank, tank ∈ tanks info → is_Some (tank_cleaning_time cfg !! tank).

(** Every step of the order has an entry in the tracker. *)
Definition tracked (cfg : config) (lce : gmap string float) : Prop :=
  ∀ s, s ∈ step_order cfg → is_Some (lce !! s).

(** [0 <= x] *)
Definition nonneg (x : float) : bool := (0 <=? x)%float.

(** Distinct step ids, every lookup of the loop succeeds, and no duration
    is negative (which also excludes [nan]). *)
Definition valid_config (cfg : config) : bool :=
  bool_decide (NoDup (step_order cfg)) && lookups_ok cfg
  && forallb (λ s, match steps cfg !! s with
                   | Some info =>
                       nonneg (setup info) && nonneg (operation info)
                       && nonneg (cleaning info)
                       && forallb (λ tank, nonneg (default 0%float
                                     (tank_cleaning_time cfg !! tank))) (tanks info)
                   | None => false
                   end) (step_order cfg).

(** [item['end'] - item['start']], the length of the drawn bar (line 115;
    line 102 of [schedule_optimization_v1.py]). *)
Definition duration (iv : interval) : float := (end_ iv - start iv)%float.

(** The module-level configuration of [schedule_optimization.py]
    (lines 5-22). *)
Definition plant : config :=
  Config ["A"; "B"; "C"; "D"; "E"; "F"]
    (<["A" := StepInfo 10 5 2 ["Tank1"; "Tank2"]]>
     (<["B" := StepInfo 3 10 1.5 ["Tank3"; "Tank4"]]>
      (<["C" := StepInfo 5 14 2 ["Tank5"; "Tank6"]]>
       (<["D" := StepInfo 2 8 1 ["Tank1"; "Tank2"]]>
        (<["E" := StepInfo 3 9 1.5 ["Tank3"; "Tank4"]]>
         (<["F" := StepInfo 4 11 2 ["Tank5"; "Tank6"]]> ∅))))))
    (<["Tank1" := 3%float]>
     (<["Tank2" := 2.5%float]>
      (<["Tank3" := 2%float]>
       (<["Tank4" := 2%float]>
        (<["Tank5" := 3%float]>
         (<["Tank6" := 2.5%float]> ∅)))))).

(** Configurations whose durations are not sums of powers of two, so that
    the loop rounds. *)
Definition rounding_gap : config :=
  Config ["A"; "B"]
    (<["A" := StepInfo 0.1 0.2 0.1 []]> (<["B" := StepInfo 0.9 0.1 0.1 []]> ∅))
    ∅.

Definition early_setup : config :=
  Config ["A"; "B"]
    (<["A" := StepInfo 0.1 0.1 0.1 []]> (<["B" := StepInfo 0.2 0.4 1.3 []]> ∅))
    ∅.

Definition short_bar : config :=
  Config ["A"; "B"]
    (<["A" := StepInfo 0.7 0.7 0.1 []]> (<["B" := StepInfo 0.7 0.5 0.1 ["T"]]> ∅))
    (<["T" := 0.1%float]> ∅).

End B64.

(** * Properties *)

(** ** The monads *)

Lemma foldM_app {A B} (f : A → B → result A) (a : A) (l1 l2 : list B) :
  foldM f a (l1 ++ l2) = (a' ← foldM f a l1; foldM f a' l2).
Proof.
  revert a. induction l1 as [|x l1 IH]; intros a; simpl; [done|].
  destruct (f a x) as [a'|e]; simpl; [apply IH|done].
Qed.

Lemma bind_ok {A B} (m : M A) (f : A → M B) (st st' : state) (a : A) :
  m st = (Ok a, st') → (m ≫= f) st = f a st'.
Proof. intros H. unfold mbind, M_bind. by rewrite H. Qed.

Lemma bind_raise {A B} (m : M A) (f : A → M B) (st st' : state) e :
  m st = (Raise e, st') → (m ≫= f) st = (Raise e, st').
Proof. intros H. unfold mbind, M_bind. by rewrite H. Qed.

Lemma bind_lift_ok {A B} (a : A) (f : A → M B) (st : state) :
  (lift (Ok a) ≫= f) st = f a st.
Proof. done. Qed.

Lemma bind_lift_raise {A B} e (f : A → M B) (st : state) :
  (lift (Raise e) ≫= f) st = (Raise e, st).
Proof. done. Qed.

Lemma bind_append {B} iv (f : () → M B) (st : state) :
  (append iv ≫= f) st = f () (State (schedule st ++ [iv]) (last_clean_end st)).
Proof. done. Qed.

Lemma bind_get {B} (f : gmap string Q → M B) (st : state) :
  (get_last_clean_end ≫= f) st = f (last_clean_end st) st.
Proof. done. Qed.

Lemma lookup_key_Some {V} (d : gmap string V) k v :
  d !! k = Some v → lookup_key d k = Ok v.
Proof. unfold lookup_key. by intros ->. Qed.

Lemma lookup_key_None {V} (d : gmap string V) k :
  d !! k = None → lookup_key d k = Raise (KeyError k).
Proof. unfold lookup_key. by intros ->. Qed.

Lemma for_each_app {A} (l1 l2 : list A) (body : A → M unit) (st : state) :
  for_each (l1 ++ l2) body st = (for_each l1 body;; for_each l2 body) st.
Proof.
  revert st. induction l1 as [|x l1 IH]; intros st; simpl; [done|].
  unfold mbind, M_bind. destruct (body x st) as [[[]|e] st']; [|done].
  rewrite IH. done.
Qed.

Lemma for_each_ok_app {A} (l1 l2 : list A) (body : A → M unit) (st st' : state) :
  for_each l1 body st = (Ok (), st') →
  for_each (l1 ++ l2) body st = for_each l2 body st'.
Proof. intros H. rewrite for_each_app. unfold mbind, M_bind. by rewrite H. Qed.

(** ** Comparisons *)

Lemma gtb_true (a b : Q) : gtb a b = true ↔ b < a.
Proof.
  unfold gtb. rewrite Qgt_alt. destruct (a ?= b); split; congruence.
Qed.

Lemma gtb_false (a b : Q) : gtb a b = false ↔ a <= b.
Proof.
  unfold gtb. rewrite Qle_alt. destruct (a ?= b); split; congruence.
Qed.

Lemma py_max_cases (a b : Q) :
  (b <= a ∧ py_max a b = a) ∨ (a < b ∧ py_max a b = b).
Proof.
  unfold py_max. destruct (gtb b a) eqn:E.
  - right. by apply gtb_true in E.
  - left. by apply gtb_false in E.
Qed.

Lemma nonneg_le (q : Q) : nonneg q = true → 0 <= q.
Proof. unfold nonneg. apply Qle_bool_imp_le. Qed.

(** ** Step 1 *)

Lemma ideal_times_chain (p : Q) (info : step_info) :
  let t := ideal_times p info in
  setup_start t = p - setup info ∧ op_start t = setup_end t ∧
  op_end t = op_start t + operation info ∧ clean_start t = op_end t ∧
  clean_end t = clean_start t + cleaning info ∧ op_start t == p.
Proof. simpl. repeat split; try done. lra. Qed.

Lemma pipeline_step_ok cfg acc step acc' :
  pipeline_step cfg acc step = Ok acc' ↔
  ∃ info, steps cfg !! step = Some info ∧
    acc' = (<[step := ideal_times acc.2 info]> acc.1, op_end (ideal_times acc.2 info)).
Proof.
  unfold pipeline_step, lookup_key.
  destruct (steps cfg !! step) as [info|]; simpl; split.
  - intros [= <-]. eauto.
  - intros (? & [= <-] & ->). done.
  - done.
  - intros (? & ? & _). done.
Qed.

Lemma pipeline_fold_notin cfg l acc acc' s :
  foldM (pipeline_step cfg) acc l = Ok acc' → s ∉ l → acc'.1 !! s = acc.1 !! s.
Proof.
  revert acc. induction l as [|x l IH]; intros acc; simpl.
  - by intros [= <-].
  - destruct (pipeline_step cfg acc x) as [a1|] eqn:E; simpl; [|done].
    intros H Hs. apply not_elem_of_cons in Hs as [Hne Hs].
    rewrite (IH _ H Hs). apply pipeline_step_ok in E as (info & _ & ->).
    simpl. by rewrite lookup_insert_ne.
Qed.

Lemma pipeline_fold_defined cfg l acc :
  (∀ s, s ∈ l → is_Some (steps cfg !! s)) →
  ∃ acc', foldM (pipeline_step cfg) acc l = Ok acc'.
Proof.
  revert acc. induction l as [|x l IH]; intros acc Hl; simpl; [eauto|].
  destruct (Hl x) as [info Hx]; [by left|].
  destruct (pipeline_step cfg acc x) as [a1|] eqn:E; simpl.
  - apply IH. intros s Hs. apply Hl. by right.
  - unfold pipeline_step, lookup_key in E. by rewrite Hx in E.
Qed.

Lemma pipeline_fold_elem cfg l acc acc' s :
  foldM (pipeline_step cfg) acc l = Ok acc' → s ∈ l →
  ∃ info prev, steps cfg !! s = Some info ∧ acc'.1 !! s = Some (ideal_times prev info).
Proof.
  revert acc. induction l as [|x l IH]; intros acc; simpl.
  - intros _ Hs. by apply elem_of_nil in Hs.
  - destruct (pipeline_step cfg acc x) as [a1|] eqn:E; simpl; [|done].
    intros H Hs. destruct (decide (s ∈ l)) as [Hin|Hnin]; [by eapply IH|].
    apply elem_of_cons in Hs as [->|]; [|done].
    rewrite (pipeline_fold_notin _ _ _ _ _ H Hnin).
    apply pipeline_step_ok in E as (info & Hinfo & ->). simpl.
    exists info, acc.2. by rewrite lookup_insert_eq.
Qed.

Lemma pipeline_fold_adjacent cfg l1 a b l2 acc acc' :
  NoDup (l1 ++ a :: b :: l2) →
  foldM (pipeline_step cfg) acc (l1 ++ a :: b :: l2) = Ok acc' →
  ∃ ta ib, acc'.1 !! a = Some ta ∧ steps cfg !! b = Some ib ∧
    acc'.1 !! b = Some (ideal_times (op_end ta) ib).
Proof.
  intros Hnd. rewrite foldM_app.
  destruct (foldM (pipeline_step cfg) acc l1) as [a1|]; simpl; [|done].
  destruct (pipeline_step cfg a1 a) as [a2|] eqn:Ea; simpl; [|done].
  destruct (pipeline_step cfg a2 b) as [a3|] eqn:Eb; simpl; [|done].
  intros H.
  apply NoDup_app in Hnd as (_ & _ & Hnd).
  apply NoDup_cons in Hnd as [Hab Hnd]. apply NoDup_cons in Hnd as [Hb _].
  apply not_elem_of_cons in Hab as [Hne Ha].
  apply pipeline_step_ok in Ea as (ia & Hia & ->).
  apply pipeline_step_ok in Eb as (ib & Hib & ->). simpl in *.
  exists (ideal_times a1.2 ia), ib.
  rewrite (pipeline_fold_notin _ _ _ _ _ H Ha), (pipeline_fold_notin _ _ _ _ _ H Hb).
  simpl. rewrite lookup_insert_ne by done. by rewrite !lookup_insert_eq.
Qed.

(** ** Step 2 *)

Lemma shift_step_ok lce pt sh step sh' :
  shift_step lce pt sh step = Ok sh' ↔
  ∃ l t, lce !! step = Some l ∧ pt !! step = Some t ∧
    sh' = (if gtb (py_max 0 (l - setup_start t)) sh
           then py_max 0 (l - setup_start t) else sh).
Proof.
  unfold shift_step, lookup_key.
  destruct (lce !! step) as [l|]; simpl; [destruct (pt !! step) as [t|]; simpl|]; split.
  - intros [= <-]. eauto.
  - intros (? & ? & [= <-] & [= <-] & ->). done.
  - done.
  - intros (? & ? & _ & ? & _). done.
  - done.
  - intros (? & ? & ? & _). done.
Qed.

Lemma shift_fold_defined lce pt l sh0 :
  (∀ s, s ∈ l → is_Some (lce !! s) ∧ is_Some (pt !! s)) →
  ∃ sh, foldM (shift_step lce pt) sh0 l = Ok sh.
Proof.
  revert sh0. induction l as [|x l IH]; intros sh0 Hl; simpl; [eauto|].
  destruct (Hl x) as [[lv Hlv] [t Ht]]; [by left|].
  assert (∃ sh1, shift_step lce pt sh0 x = Ok sh1) as [sh1 ->].
  { eexists. apply shift_step_ok. eauto. }
  simpl. apply IH. intros s Hs. apply Hl. by right.
Qed.

(** The loop returns an upper bound of its start value and of every step's
    requirement. *)
Lemma shift_fold_bounds lce pt l sh0 sh :
  foldM (shift_step lce pt) sh0 l = Ok sh →
  sh0 <= sh ∧
  ∀ s, s ∈ l → ∃ lv t, lce !! s = Some lv ∧ pt !! s = Some t ∧
    lv - setup_start t <= sh.
Proof.
  revert sh0. induction l as [|x l IH]; intros sh0; simpl.
  - intros [= <-]. split; [lra|]. intros s Hs. by apply elem_of_nil in Hs.
  - destruct (shift_step lce pt sh0 x) as [sh1|] eqn:E; simpl; [|done].
    intros H. apply IH in H as [Hle Hall].
    apply shift_step_ok in E as (lv & t & Hlv & Ht & ->).
    destruct (gtb _ sh0) eqn:G;
      [apply gtb_true in G|apply gtb_false in G];
      destruct (py_max_cases 0 (lv - setup_start t)) as [[H1 Hm]|[H1 Hm]];
      rewrite Hm in *.
    all: split; [lra|].
    all: intros s [->|Hs]%elem_of_cons; [exists lv, t; repeat split; [done..|lra]|by apply Hall].
Qed.

(** The loop returns its start value or the requirement of some step. *)
Lemma shift_fold_attained lce pt l sh0 sh :
  foldM (shift_step lce pt) sh0 l = Ok sh → 0 <= sh0 →
  sh = sh0 ∨
  ∃ s lv t, s ∈ l ∧ lce !! s = Some lv ∧ pt !! s = Some t ∧
    sh = lv - setup_start t.
Proof.
  revert sh0. induction l as [|x l IH]; intros sh0; simpl.
  - intros [= <-]. by left.
  - destruct (shift_step lce pt sh0 x) as [sh1|] eqn:E; simpl; [|done].
    intros H H0.
    apply shift_step_ok in E as (lv & t & Hlv & Ht & ->).
    destruct (gtb _ sh0) eqn:G.
    + apply gtb_true in G.
      destruct (py_max_cases 0 (lv - setup_start t)) as [[H1 Hm]|[H1 Hm]];
        rewrite Hm in *; [lra|].
      apply IH in H; [|lra].
      destruct H as [->|(s & lv' & t' & Hs & ? & ? & ->)].
      * right. exists x, lv, t. repeat split; try done. by left.
      * right. exists s, lv', t'. repeat split; try done. by right.
    + apply IH in H; [|done].
      destruct H as [->|(s & lv' & t' & Hs & ? & ? & ->)]; [by left|].
      right. exists s, lv', t'. repeat split; try done. by right.
Qed.

Lemma Qmax_cases (a b : Q) : (a < b ∧ Qmax a b == b) ∨ (b <= a ∧ Qmax a b == a).
Proof. apply Q.max_spec. Qed.

Lemma shift_spec_nonneg order lce pt : 0 <= shift_spec order lce pt.
Proof.
  induction order as [|x l IH]; simpl; [lra|].
  destruct (Qmax_cases (required_spec lce pt x) (shift_spec l lce pt)) as [[? ->]|[? ->]];
    [done|]. unfold required_spec.
  destruct (Qmax_cases 0 (default 0 (lce !! x) - from_option setup_start 0 (pt !! x)))
    as [[? ->]|[? ->]]; lra.
Qed.

(** The loop computes the formula of the specification. *)
Lemma shift_fold_formula lce pt l sh0 sh :
  foldM (shift_step lce pt) sh0 l = Ok sh → 0 <= sh0 →
  sh == Qmax sh0 (shift_spec l lce pt).
Proof.
  revert sh0. induction l as [|x l IH]; intros sh0; simpl.
  - intros [= <-] H0. destruct (Qmax_cases sh0 0) as [[? ->]|[? ->]]; lra.
  - destruct (shift_step lce pt sh0 x) as [sh1|] eqn:E; simpl; [|done].
    intros H H0.
    apply shift_step_ok in E as (lv & t & Hlv & Ht & ->).
    pose proof (shift_spec_nonneg l lce pt) as Hm.
    unfold required_spec. rewrite Hlv, Ht. simpl.
    set (d := lv - setup_start t) in *.
    set (m := shift_spec l lce pt) in *.
    assert (0 <= (if gtb (py_max 0 d) sh0 then py_max 0 d else sh0)) as H1.
    { destruct (gtb _ sh0) eqn:G; [apply gtb_true in G; lra|done]. }
    rewrite (IH _ H H1). clear IH H H1.
    generalize (Qmax_cases 0 d).
    generalize (Qmax_cases (Qmax 0 d) m).
    generalize (Qmax_cases sh0 (Qmax (Qmax 0 d) m)).
    generalize (Qmax 0 d) as r. intros r.
    generalize (Qmax r m) as rm. intros rm.
    generalize (Qmax sh0 rm) as u. intros u E3 E2 E1.
    destruct (py_max_cases 0 d) as [[Hd ->]|[Hd ->]];
      destruct (gtb _ sh0) eqn:G;
      try apply gtb_true in G; try apply gtb_false in G;
      match goal with |- Qmax ?a ?b == _ =>
        destruct (Qmax_cases a b) as [[? E4]|[? E4]]; rewrite E4 end;
      lra.
Qed.

(** ** Step 3 *)

Lemma tank_loop_ok cfg cycle ss l st :
  (∀ tank, tank ∈ l → is_Some (tank_cleaning_time cfg !! tank)) →
  for_each l (schedule_tank cfg cycle ss) st =
    (Ok (), State (schedule st ++ (tank_interval cfg cycle ss <$> l)) (last_clean_end st)).
Proof.
  revert st. induction l as [|x l IH]; intros st Hl; simpl.
  - rewrite app_nil_r. by destruct st.
  - destruct (Hl x) as [d Hd]; [by left|].
    erewrite bind_ok; last first.
    { unfold schedule_tank. rewrite (lookup_key_Some _ _ _ Hd), bind_lift_ok. done. }
    rewrite IH by (intros; apply Hl; by right). simpl.
    unfold tank_interval at 2. rewrite Hd. simpl. by rewrite <- app_assoc.
Qed.

Lemma tank_loop_raise cfg cycle ss k1 tank k2 st :
  (∀ x, x ∈ k1 → is_Some (tank_cleaning_time cfg !! x)) →
  tank_cleaning_time cfg !! tank = None →
  for_each (k1 ++ tank :: k2) (schedule_tank cfg cycle ss) st =
    (Raise (KeyError tank),
     State (schedule st ++ (tank_interval cfg cycle ss <$> k1)) (last_clean_end st)).
Proof.
  intros Hk Ht. rewrite (for_each_ok_app _ _ _ _ _ (tank_loop_ok _ _ _ _ _ Hk)).
  simpl. apply bind_raise. unfold schedule_tank.
  by rewrite (lookup_key_None _ _ Ht), bind_lift_raise.
Qed.

Lemma schedule_step_ok cfg cycle pt sh step info t st :
  steps cfg !! step = Some info → pt !! step = Some t →
  (∀ tank, tank ∈ tanks info → is_Some (tank_cleaning_time cfg !! tank)) →
  schedule_step cfg cycle pt sh step st =
    (Ok (), State (schedule st ++ step_block cfg cycle pt sh step)
                  (<[step := clean_end t + sh]> (last_clean_end st))).
Proof.
  intros Hi Ht Hk. unfold schedule_step, step_block.
  rewrite (lookup_key_Some _ _ _ Hi), (lookup_key_Some _ _ _ Ht), Hi, Ht.
  rewrite !bind_lift_ok, !bind_append.
  erewrite bind_ok; [|by apply tank_loop_ok].
  unfold set_last_clean_end. simpl. by rewrite <- !app_assoc.
Qed.

Lemma schedule_step_raise cfg cycle pt sh step info t k1 tank k2 st :
  steps cfg !! step = Some info → pt !! step = Some t →
  tanks info = k1 ++ tank :: k2 →
  (∀ x, x ∈ k1 → is_Some (tank_cleaning_time cfg !! x)) →
  tank_cleaning_time cfg !! tank = None →
  schedule_step cfg cycle pt sh step st =
    (Raise (KeyError tank),
     State (schedule st ++
            setup_task step cycle (setup_start t + sh) (setup_end t + sh)
            :: operation_task step cycle (op_start t + sh) (op_end t + sh)
            :: cleaning_task step cycle (clean_start t + sh) (clean_end t + sh)
            :: (tank_interval cfg cycle (setup_start t + sh) <$> k1))
           (last_clean_end st)).
Proof.
  intros Hi Ht Hk Hk1 Hn. unfold schedule_step.
  rewrite (lookup_key_Some _ _ _ Hi), (lookup_key_Some _ _ _ Ht).
  rewrite !bind_lift_ok, !bind_append.
  erewrite bind_raise; [|rewrite Hk; by apply tank_loop_raise].
  simpl. by rewrite <- !app_assoc.
Qed.

Lemma schedule_loop_ok cfg cycle pt sh l st :
  (∀ s, s ∈ l → step_ready cfg pt s) →
  ∃ st', for_each l (schedule_step cfg cycle pt sh) st = (Ok (), st') ∧
    schedule st' = schedule st ++ flat_map (step_block cfg cycle pt sh) l ∧
    (∀ s, s ∉ l → last_clean_end st' !! s = last_clean_end st !! s) ∧
    (∀ s t, s ∈ l → pt !! s = Some t →
       last_clean_end st' !! s = Some (clean_end t + sh)).
Proof.
  revert st. induction l as [|x l IH]; intros st Hl; simpl.
  - exists st. rewrite app_nil_r. repeat split; try done.
    intros s t Hs. by apply elem_of_nil in Hs.
  - destruct (Hl x) as (info & t & Hi & Ht & Hk); [by left|].
    rewrite (bind_ok _ _ _ _ _ (schedule_step_ok _ _ _ sh _ _ _ st Hi Ht Hk)).
    destruct (IH (State (schedule st ++ step_block cfg cycle pt sh x)
                        (<[x := clean_end t + sh]> (last_clean_end st))))
      as (st' & -> & Hs & Ho & Hn); [intros; apply Hl; by right|].
    exists st'. simpl in *. rewrite Hs, <- app_assoc. repeat split; try done.
    + intros s [Hne Hnin]%not_elem_of_cons. rewrite Ho by done.
      by rewrite lookup_insert_ne.
    + intros s t' Hin Ht'. destruct (decide (s ∈ l)) as [|Hnin]; [by apply Hn|].
      apply elem_of_cons in Hin as [->|]; [|done].
      rewrite Ho by done. rewrite lookup_insert_eq. congruence.
Qed.

(** ** The cycle loop *)

Lemma build_nonpos cfg n : (n ≤ 0)%Z → build cfg n = (Ok (), initial_state cfg).
Proof. intros Hn. unfold build, range. by rewrite seqZ_nil by lia. Qed.

Lemma build_succ cfg n :
  (0 ≤ n)%Z →
  build cfg (n + 1) =
    match build cfg n with
    | (Ok _, st) => run_cycle cfg (n + 1) st
    | (Raise e, st) => (Raise e, st)
    end.
Proof.
  intros Hn. unfold build, range.
  replace (n + 1 + 1 - 1)%Z with (n + 1)%Z by lia.
  replace (n + 1 - 1)%Z with n by lia.
  rewrite seqZ_app by lia. rewrite for_each_app.
  unfold mbind at 1, M_bind at 1.
  destruct (for_each (seqZ 1 n) (run_cycle cfg) (initial_state cfg)) as [[[]|e] st]; [|done].
  rewrite seqZ_cons, seqZ_nil by lia. simpl.
  replace (1 + n)%Z with (n + 1)%Z by lia.
  unfold mbind, M_bind. by destruct (run_cycle cfg (n + 1) st) as [[[]|?] ?].
Qed.

Lemma initial_tracker cfg s :
  s ∈ step_order cfg → last_clean_end (initial_state cfg) !! s = Some 0.
Proof.
  unfold initial_state. simpl. generalize (∅ : gmap string Q).
  induction (step_order cfg) as [|x l IH]; intros d Hs; simpl.
  - by apply elem_of_nil in Hs.
  - destruct (decide (s ∈ l)) as [|Hn]; [by apply IH|].
    apply elem_of_cons in Hs as [->|]; [|done].
    clear IH. revert d. induction l as [|y l IH]; intros d; simpl.
    + by rewrite lookup_insert_eq.
    + apply not_elem_of_cons in Hn as [Hne Hn].
      rewrite insert_insert_ne by done. by apply IH.
Qed.

(** ** Builds of a valid configuration *)

Section valid_build.
Context (cfg : config) (Hv : valid_config cfg = true).

Lemma valid_config_NoDup : NoDup (step_order cfg).
Proof.
  unfold valid_config in Hv. apply andb_true_iff in Hv as [H _].
  by apply bool_decide_eq_true in H.
Qed.

Lemma valid_config_step s :
  s ∈ step_order cfg →
  ∃ info, steps cfg !! s = Some info ∧
    0 <= setup info ∧ 0 <= operation info ∧ 0 <= cleaning info ∧
    ∀ tank, tank ∈ tanks info → is_Some (tank_cleaning_time cfg !! tank).
Proof.
  intros Hs. unfold valid_config in Hv. apply andb_true_iff in Hv as [_ H].
  rewrite forallb_forall in H. apply list_elem_of_In, H in Hs.
  unfold valid_step in Hs. destruct (steps cfg !! s) as [info|]; [|done].
  exists info.
  apply andb_true_iff in Hs as [Hs Hk]. apply andb_true_iff in Hs as [Hs Hc].
  apply andb_true_iff in Hs as [Hs Ho].
  repeat split; try by apply nonneg_le.
  intros tank Ht. rewrite forallb_forall in Hk.
  apply list_elem_of_In, Hk in Ht. by destruct (tank_cleaning_time cfg !! tank).
Qed.

Lemma valid_pipeline :
  ∃ pt, pipeline_times cfg = Ok pt ∧
    ∀ s, s ∈ step_order cfg →
      ∃ info prev, steps cfg !! s = Some info ∧ pt !! s = Some (ideal_times prev info).
Proof.
  unfold pipeline_times.
  destruct (pipeline_fold_defined cfg (step_order cfg) (∅, 0)) as [acc Hacc].
  { intros s Hs. destruct (valid_config_step _ Hs) as (? & ? & _). eauto. }
  rewrite Hacc. exists acc.1. split; [done|].
  intros s Hs. by eapply pipeline_fold_elem.
Qed.

(** From here on [pt] is the [pipeline_times] of the configuration. *)
Context (pt : gmap string times) (Hpt : pipeline_times cfg = Ok pt).

Lemma valid_step_ready s : s ∈ step_order cfg → step_ready cfg pt s.
Proof.
  intros Hs. destruct valid_pipeline as (pt' & Hpt' & Hall).
  assert (pt' = pt) as -> by congruence.
  destruct (Hall _ Hs) as (info & prev & Hi & Ht).
  destruct (valid_config_step _ Hs) as (info' & Hi' & _ & _ & _ & Hk).
  assert (info' = info) as -> by congruence.
  by exists info, (ideal_times prev info).
Qed.

Lemma step_block_length cycle sh s :
  s ∈ step_order cfg → length (step_block cfg cycle pt sh s) = block_len cfg s.
Proof.
  intros (info & t & Hi & Ht & _)%valid_step_ready. unfold step_block, block_len.
  rewrite Hi, Ht. simpl. by rewrite length_fmap.
Qed.

Lemma cycle_block_length cycle sh l :
  l ⊆ step_order cfg →
  length (flat_map (step_block cfg cycle pt sh) l) = sum_list (block_len cfg <$> l).
Proof.
  induction l as [|x l IH]; intros Hl; simpl; [done|].
  rewrite length_app, step_block_length, IH; [done|set_solver..].
Qed.

(** *** One cycle *)

Lemma run_cycle_ok cycle st :
  tracked cfg (last_clean_end st) →
  ∃ sh st', shift (step_order cfg) (last_clean_end st) pt = Ok sh ∧
    run_cycle cfg cycle st = (Ok (), st') ∧
    schedule st' = schedule st ++ flat_map (step_block cfg cycle pt sh) (step_order cfg) ∧
    tracked cfg (last_clean_end st') ∧
    (∀ s t, s ∈ step_order cfg → pt !! s = Some t →
       last_clean_end st' !! s = Some (clean_end t + sh)).
Proof.
  intros Htr.
  destruct (shift_fold_defined (last_clean_end st) pt (step_order cfg) 0) as [sh Hsh].
  { intros s Hs. split; [by apply Htr|].
    destruct (valid_step_ready _ Hs) as (? & ? & _ & ? & _). eauto. }
  destruct (schedule_loop_ok cfg cycle pt sh (step_order cfg) st)
    as (st' & Hrun & Hsched & _ & Hlce); [by apply valid_step_ready|].
  exists sh, st'. split; [done|]. split; [|split; [done|split; [|done]]].
  - unfold run_cycle, shift. by rewrite Hpt, bind_lift_ok, bind_get, Hsh, bind_lift_ok.
  - intros s Hs. destruct (valid_step_ready _ Hs) as (? & t & _ & Ht & _).
    rewrite (Hlce _ _ Hs Ht). eauto.
Qed.

(** *** The cycle loop *)

Lemma build_ok (k : nat) :
  (build cfg (Z.of_nat k)).1 = Ok () ∧ tracked cfg (tracker cfg (Z.of_nat k)) ∧
  length (schedule (build cfg (Z.of_nat k)).2) = (k * cycle_len cfg)%nat.
Proof.
  unfold tracker. induction k as [|k (Hok & Htr & Hlen)].
  - rewrite build_nonpos by done. repeat split; try done.
    intros s Hs. cbn [snd]. rewrite initial_tracker by done. eauto.
  - replace (Z.of_nat (S k)) with (Z.of_nat k + 1)%Z by lia.
    rewrite build_succ by lia.
    destruct (build cfg (Z.of_nat k)) as [r st]. simpl in *. subst r.
    destruct (run_cycle_ok (Z.of_nat k + 1) st Htr) as (sh & st' & _ & -> & Hs & Htr' & _).
    simpl. repeat split; try done.
    rewrite Hs, length_app, Hlen, cycle_block_length by done. unfold cycle_len. lia.
Qed.

(** What cycle [c] adds to the state left by cycle [c - 1]. *)
Lemma cycle_facts c :
  (1 ≤ c)%Z →
  ∃ sh, cycle_shift cfg c = Ok sh ∧
    schedule (build cfg c).2 =
      schedule (build cfg (c - 1)).2 ++ flat_map (step_block cfg c pt sh) (step_order cfg) ∧
    ∀ s t, s ∈ step_order cfg → pt !! s = Some t →
      tracker cfg c !! s = Some (clean_end t + sh).
Proof.
  intros Hc.
  destruct (build_ok (Z.to_nat (c - 1))) as (Hok & Htr & _).
  rewrite Z2Nat.id in Hok, Htr by lia.
  assert (build cfg c = match build cfg (c - 1) with
                        | (Ok _, st) => run_cycle cfg c st
                        | (Raise e, st) => (Raise e, st)
                        end) as E.
  { replace c with (c - 1 + 1)%Z at 1 by lia. rewrite build_succ by lia.
    by replace (c - 1 + 1)%Z with c by lia. }
  unfold cycle_shift, tracker in *. rewrite E, Hpt. clear E.
  destruct (build cfg (c - 1)) as [r st]. cbn [fst snd] in *. subst r.
  destruct (run_cycle_ok c st Htr) as (sh & st' & Hsh & -> & Hs & _ & Hl).
  exists sh. by repeat split.
Qed.

Lemma build_prefix n (d : nat) :
  (0 ≤ n)%Z →
  ∃ rest, schedule (build cfg (n + Z.of_nat d)).2 = schedule (build cfg n).2 ++ rest.
Proof.
  intros Hn. induction d as [|d [rest IH]].
  - exists []. rewrite app_nil_r. f_equal. f_equal. f_equal. lia.
  - destruct (cycle_facts (n + Z.of_nat (S d))) as (sh & _ & Hs & _); [lia|].
    replace (n + Z.of_nat (S d) - 1)%Z with (n + Z.of_nat d)%Z in Hs by lia.
    rewrite Hs, IH, <- app_assoc. eauto.
Qed.

(** The block of the [i]-th step of cycle [c] sits at [task_index]. *)
Lemma emitted_lookup sh N c i k s :
  (1 ≤ c ≤ N)%Z →
  cycle_shift cfg c = Ok sh → step_order cfg !! i = Some s →
  (k < block_len cfg s)%nat →
  emitted cfg N c i k = step_block cfg c pt sh s !! k.
Proof.
  intros Hc Hsh Hi Hk. unfold emitted, task_index.
  destruct (build_prefix c (Z.to_nat (N - c))) as [rest Hrest]; [lia|].
  replace (c + Z.of_nat (Z.to_nat (N - c)))%Z with N in Hrest by lia.
  destruct (cycle_facts c) as (sh' & Hsh' & Hs & _); [lia|].
  assert (sh' = sh) as -> by congruence.
  destruct (build_ok (Z.to_nat (c - 1))) as (_ & _ & Hlen).
  rewrite Z2Nat.id in Hlen by lia.
  rewrite Hrest, Hs. rewrite <- (take_drop_middle _ _ _ Hi) at 2.
  rewrite flat_map_app. simpl.
  rewrite <- !app_assoc, <- Nat.add_assoc.
  rewrite lookup_app_r by lia. rewrite Hlen, Nat.add_comm, Nat.add_sub.
  rewrite lookup_app_r; rewrite cycle_block_length; try lia; try apply subseteq_take.
  rewrite Nat.add_comm, Nat.add_sub.
  rewrite lookup_app_l; [done|]. rewrite step_block_length; [done|].
  by eapply list_elem_of_lookup_2.
Qed.

End valid_build.

(** The same facts without naming the pipeline times. *)
Lemma valid_build_ok cfg (k : nat) :
  valid_config cfg = true →
  (build cfg (Z.of_nat k)).1 = Ok () ∧ tracked cfg (tracker cfg (Z.of_nat k)) ∧
  length (schedule (build cfg (Z.of_nat k)).2) = (k * cycle_len cfg)%nat.
Proof.
  intros Hv. destruct (valid_pipeline _ Hv) as (pt & Hpt & _). by eapply build_ok.
Qed.

Lemma valid_build_prefix cfg n (d : nat) :
  valid_config cfg = true → (0 ≤ n)%Z →
  ∃ rest, schedule (build cfg (n + Z.of_nat d)).2 = schedule (build cfg n).2 ++ rest.
Proof.
  intros Hv. destruct (valid_pipeline _ Hv) as (pt & Hpt & _). by eapply build_prefix.
Qed.

(** Everything one step of one cycle leaves in the schedule and in the
    tracker. *)
Lemma emitted_step cfg N c i s :
  valid_config cfg = true → (1 ≤ c ≤ N)%Z → step_order cfg !! i = Some s →
  ∃ pt sh info t prev,
    pipeline_times cfg = Ok pt ∧ cycle_shift cfg c = Ok sh ∧
    steps cfg !! s = Some info ∧ pt !! s = Some t ∧ t = ideal_times prev info ∧
    emitted cfg N c i 0 =
      Some (setup_task s c (setup_start t + sh) (setup_end t + sh)) ∧
    emitted cfg N c i 1 =
      Some (operation_task s c (op_start t + sh) (op_end t + sh)) ∧
    emitted cfg N c i 2 =
      Some (cleaning_task s c (clean_start t + sh) (clean_end t + sh)) ∧
    (∀ j tank, tanks info !! j = Some tank →
       emitted cfg N c i (3 + j) =
         Some (tank_interval cfg c (setup_start t + sh) tank)) ∧
    tracker cfg c !! s = Some (clean_end t + sh).
Proof.
  intros Hv Hc Hi.
  destruct (valid_pipeline _ Hv) as (pt & Hpt & Hall).
  assert (s ∈ step_order cfg) as Hs by by eapply list_elem_of_lookup_2.
  destruct (Hall _ Hs) as (info & prev & Hinfo & Ht).
  destruct (cycle_facts cfg Hv pt Hpt c) as (sh & Hsh & _ & Htr); [lia|].
  exists pt, sh, info, (ideal_times prev info), prev.
  assert (block_len cfg s = (3 + length (tanks info))%nat) as Hlen.
  { unfold block_len. by rewrite Hinfo. }
  assert (step_block cfg c pt sh s =
    setup_task s c (setup_start (ideal_times prev info) + sh)
                   (setup_end (ideal_times prev info) + sh)
    :: operation_task s c (op_start (ideal_times prev info) + sh)
                          (op_end (ideal_times prev info) + sh)
    :: cleaning_task s c (clean_start (ideal_times prev info) + sh)
                         (clean_end (ideal_times prev info) + sh)
    :: (tank_interval cfg c (setup_start (ideal_times prev info) + sh) <$> tanks info))
    as Hblock.
  { unfold step_block. by rewrite Hinfo, Ht. }
  pose proof (emitted_lookup cfg Hv pt Hpt sh N c i) as Hlook.
  repeat split; try done.
  - rewrite (Hlook 0%nat s) by (done || lia). by rewrite Hblock.
  - rewrite (Hlook 1%nat s) by (done || lia). by rewrite Hblock.
  - rewrite (Hlook 2%nat s) by (done || lia). by rewrite Hblock.
  - intros j tank Hj. rewrite (Hlook (3 + j)%nat s); try done.
    + rewrite Hblock. simpl. by rewrite list_lookup_fmap, Hj.
    + apply lookup_lt_Some in Hj. lia.
  - by apply Htr.
Qed.

(** ** An id repeated in the order

    [pipeline_times] is keyed by step id, so the second pass of Step 1
    over the id overwrites the first entry, and Step 3 appends the same
    timings twice: the two Operation intervals coincide instead of being
    adjacent.  This is why [valid_config] asks for distinct ids. *)
Example repeated_step_id :
  valid_config repeated = false ∧
  emitted repeated 1 1 0 1 = Some (Interval "A Operation (Cycle 1)" 5 10 "A") ∧
  emitted repeated 1 1 1 1 = Some (Interval "A Operation (Cycle 1)" 5 10 "A").
Proof. vm_compute. done. Qed.

(** * The loop in binary64

    The structure of a build does not depend on the arithmetic: the facts
    below are those of the exact model, proved again for [B64.build].  No
    property of the rounded [+] and [-] is used. *)

Section binary64.
Import B64.

Lemma bind_ok_b64 {A B} (m : M A) (f : A → M B) (st st' : state) (a : A) :
  m st = (Ok a, st') → (m ≫= f) st = f a st'.
Proof. intros H. unfold mbind, M_bind. by rewrite H. Qed.

Lemma bind_lift_ok_b64 {A B} (a : A) (f : A → M B) (st : state) :
  (lift (Ok a) ≫= f) st = f a st.
Proof. done. Qed.

Lemma bind_append_b64 {B} iv (f : () → M B) (st : state) :
  (append iv ≫= f) st = f () (State (schedule st ++ [iv]) (last_clean_end st)).
Proof. done. Qed.

Lemma bind_get_b64 {B} (f : gmap string float → M B) (st : state) :
  (get_last_clean_end ≫= f) st = f (last_clean_end st) st.
Proof. done. Qed.

Lemma for_each_app_b64 {A} (l1 l2 : list A) (body : A → M unit) (st : state) :
  for_each (l1 ++ l2) body st = (for_each l1 body;; for_each l2 body) st.
Proof.
  revert st. induction l1 as [|x l1 IH]; intros st; simpl; [done|].
  unfold mbind, M_bind. destruct (body x st) as [[[]|e] st']; [|done].
  rewrite IH. done.
Qed.

(** ** Step 1 *)

Lemma pipeline_step_ok_b64 cfg acc step acc' :
  pipeline_step cfg acc step = Ok acc' ↔
  ∃ info, steps cfg !! step = Some info ∧
    acc' = (<[step := ideal_times acc.2 info]> acc.1, op_end (ideal_times acc.2 info)).
Proof.
  unfold pipeline_step, lookup_key.
  destruct (steps cfg !! step) as [info|]; simpl; split.
  - intros [= <-]. eauto.
  - intros (? & [= <-] & ->). done.
  - done.
  - intros (? & ? & _). done.
Qed.

Lemma pipeline_fold_notin_b64 cfg l acc acc' s :
  foldM (pipeline_step cfg) acc l = Ok acc' → s ∉ l → acc'.1 !! s = acc.1 !! s.
Proof.
  revert acc. induction l as [|x l IH]; intros acc; simpl.
  - by intros [= <-].
  - destruct (pipeline_step cfg acc x) as [a1|] eqn:E; simpl; [|done].
    intros H Hs. apply not_elem_of_cons in Hs as [Hne Hs].
    rewrite (IH _ H Hs). apply pipeline_step_ok_b64 in E as (info & _ & ->).
    simpl. by rewrite lookup_insert_ne.
Qed.

Lemma pipeline_fold_defined_b64 cfg l acc :
  (∀ s, s ∈ l → is_Some (steps cfg !! s)) →
  ∃ acc', foldM (pipeline_step cfg) acc l = Ok acc'.
Proof.
  revert acc. induction l as [|x l IH]; intros acc Hl; simpl; [eauto|].
  destruct (Hl x) as [info Hx]; [by left|].
  destruct (pipeline_step cfg acc x) as [a1|] eqn:E; simpl.
  - apply IH. intros s Hs. apply Hl. by right.
  - unfold pipeline_step, lookup_key in E. by rewrite Hx in E.
Qed.

Lemma pipeline_fold_elem_b64 cfg l acc acc' s :
  foldM (pipeline_step cfg) acc l = Ok acc' → s ∈ l →
  ∃ info prev, steps cfg !! s = Some info ∧ acc'.1 !! s = Some (ideal_times prev info).
Proof.
  revert acc. induction l as [|x l IH]; intros acc; simpl.
  - intros _ Hs. by apply elem_of_nil in Hs.
  - destruct (pipeline_step cfg acc x) as [a1|] eqn:E; simpl; [|done].
    intros H Hs. destruct (decide (s ∈ l)) as [Hin|Hnin]; [by eapply IH|].
    apply elem_of_cons in Hs as [->|]; [|done].
    rewrite (pipeline_fold_notin_b64 _ _ _ _ _ H Hnin).
    apply pipeline_step_ok_b64 in E as (info & Hinfo & ->). simpl.
    exists info, acc.2. by rewrite lookup_insert_eq.
Qed.

(** ** Step 2 *)

Lemma shift_fold_defined_b64 lce pt l sh0 :
  (∀ s, s ∈ l → is_Some (lce !! s) ∧ is_Some (pt !! s)) →
  ∃ sh, foldM (shift_step lce pt) sh0 l = Ok sh.
Proof.
  revert sh0. induction l as [|x l IH]; intros sh0 Hl; simpl; [eauto|].
  destruct (Hl x) as [[lv Hlv] [t Ht]]; [by left|].
  assert (∃ sh1, shift_step lce pt sh0 x = Ok sh1) as [sh1 ->].
  { unfold shift_step, lookup_key. rewrite Hlv, Ht. simpl. eauto. }
  simpl. apply IH. intros s Hs. apply Hl. by right.
Qed.

(** ** Step 3 *)

Lemma tank_loop_ok_b64 cfg cycle ss l st :
  (∀ tank, tank ∈ l → is_Some (tank_cleaning_time cfg !! tank)) →
  for_each l (schedule_tank cfg cycle ss) st =
    (Ok (), State (schedule st ++ (tank_interval cfg cycle ss <$> l)) (last_clean_end st)).
Proof.
  revert st. induction l as [|x l IH]; intros st Hl; simpl.
  - rewrite app_nil_r. by destruct st.
  - destruct (Hl x) as [d Hd]; [by left|].
    erewrite bind_ok_b64; last first.
    { unfold schedule_tank. rewrite (lookup_key_Some _ _ _ Hd), bind_lift_ok_b64. done. }
    rewrite IH by (intros; apply Hl; by right). simpl.
    unfold tank_interval at 2. rewrite Hd. simpl. by rewrite <- app_assoc.
Qed.

Lemma schedule_step_ok_b64 cfg cycle pt sh step info t st :
  steps cfg !! step = Some info → pt !! step = Some t →
  (∀ tank, tank ∈ tanks info → is_Some (tank_cleaning_time cfg !! tank)) →
  schedule_step cfg cycle pt sh step st =
    (Ok (), State (schedule st ++ step_block cfg cycle pt sh step)
                  (<[step := (clean_end t + sh)%float]> (last_clean_end st))).
Proof.
  intros Hi Ht Hk. unfold schedule_step, step_block.
  rewrite (lookup_key_Some _ _ _ Hi), (lookup_key_Some _ _ _ Ht), Hi, Ht.
  rewrite !bind_lift_ok_b64, !bind_append_b64.
  erewrite bind_ok_b64; [|by apply tank_loop_ok_b64].
  unfold set_last_clean_end. simpl. by rewrite <- !app_assoc.
Qed.

Lemma schedule_loop_ok_b64 cfg cycle pt sh l st :
  (∀ s, s ∈ l → step_ready cfg pt s) →
  ∃ st', for_each l (schedule_step cfg cycle pt sh) st = (Ok (), st') ∧
    schedule st' = schedule st ++ flat_map (step_block cfg cycle pt sh) l ∧
    (∀ s, s ∉ l → last_clean_end st' !! s = last_clean_end st !! s) ∧
    (∀ s, s ∈ l → is_Some (last_clean_end st' !! s)).
Proof.
  revert st. induction l as [|x l IH]; intros st Hl; simpl.
  - exists st. rewrite app_nil_r. repeat split; try done.
    intros s Hs. by apply elem_of_nil in Hs.
  - destruct (Hl x) as (info & t & Hi & Ht & Hk); [by left|].
    rewrite (bind_ok_b64 _ _ _ _ _ (schedule_step_ok_b64 _ _ _ sh _ _ _ st Hi Ht Hk)).
    destruct (IH (State (schedule st ++ step_block cfg cycle pt sh x)
                        (<[x := (clean_end t + sh)%float]> (last_clean_end st))))
      as (st' & -> & Hs & Ho & Hn); [intros; apply Hl; by right|].
    exists st'. simpl in *. rewrite Hs, <- app_assoc. repeat split; try done.
    + intros s [Hne Hnin]%not_elem_of_cons. rewrite Ho by done.
      by rewrite lookup_insert_ne.
    + intros s Hin. destruct (decide (s ∈ l)) as [|Hnin]; [by apply Hn|].
      apply elem_of_cons in Hin as [->|]; [|done].
      rewrite Ho by done. rewrite lookup_insert_eq. eauto.
Qed.

(** ** The cycle loop *)

Lemma build_nonpos_b64 cfg n : (n ≤ 0)%Z → build cfg n = (Ok (), initial_state cfg).
Proof. intros Hn. unfold build, range. by rewrite seqZ_nil by lia. Qed.

Lemma build_succ_b64 cfg n :
  (0 ≤ n)%Z →
  build cfg (n + 1) =
    match build cfg n with
    | (Ok _, st) => run_cycle cfg (n + 1) st
    | (Raise e, st) => (Raise e, st)
    end.
Proof.
  intros Hn. unfold build, range.
  replace (n + 1 + 1 - 1)%Z with (n + 1)%Z by lia.
  replace (n + 1 - 1)%Z with n by lia.
  rewrite seqZ_app by lia. rewrite for_each_app_b64.
  unfold mbind at 1, M_bind at 1.
  destruct (for_each (seqZ 1 n) (run_cycle cfg) (initial_state cfg)) as [[[]|e] st]; [|done].
  rewrite seqZ_cons, seqZ_nil by lia. simpl.
  replace (1 + n)%Z with (n + 1)%Z by lia.
  unfold mbind, M_bind. by destruct (run_cycle cfg (n + 1) st) as [[[]|?] ?].
Qed.

Lemma initial_tracker_b64 cfg s :
  s ∈ step_order cfg → is_Some (last_clean_end (initial_state cfg) !! s).
Proof.
  unfold initial_state. simpl. generalize (∅ : gmap string float).
  induction (step_order cfg) as [|x l IH]; intros d Hs; simpl.
  - by apply elem_of_nil in Hs.
  - destruct (decide (s ∈ l)) as [|Hn]; [by apply IH|].
    apply elem_of_cons in Hs as [->|]; [|done].
    clear IH. revert d. induction l as [|y l IH]; intros d; simpl.
    + rewrite lookup_insert_eq. eauto.
    + apply not_elem_of_cons in Hn as [Hne Hn].
      rewrite insert_insert_ne by done. by apply IH.
Qed.

(** ** Builds whose lookups all succeed *)

Context (cfg : config) (Hok : lookups_ok cfg = true).

Lemma lookups_ok_step_b64 s :
  s ∈ step_order cfg →
  ∃ info, steps cfg !! s = Some info ∧
    ∀ tank, tank ∈ tanks info → is_Some (tank_cleaning_time cfg !! tank).
Proof.
  intros Hs. unfold lookups_ok in Hok. rewrite forallb_forall in Hok.
  apply list_elem_of_In, Hok in Hs.
  destruct (steps cfg !! s) as [info|]; [|done].
  exists info. split; [done|]. intros tank Ht. rewrite forallb_forall in Hs.
  apply list_elem_of_In, Hs in Ht. by apply bool_decide_eq_true in Ht.
Qed.

Lemma lookups_ok_pipeline_b64 :
  ∃ pt, pipeline_times cfg = Ok pt ∧
    ∀ s, s ∈ step_order cfg →
      ∃ info prev, steps cfg !! s = Some info ∧ pt !! s = Some (ideal_times prev info).
Proof.
  unfold pipeline_times.
  destruct (pipeline_fold_defined_b64 cfg (step_order cfg) (∅, 0%float)) as [acc Hacc].
  { intros s Hs. destruct (lookups_ok_step_b64 _ Hs) as (? & ? & _). eauto. }
  rewrite Hacc. exists acc.1. split; [done|].
  intros s Hs. by eapply pipeline_fold_elem_b64.
Qed.

Context (pt : gmap string times) (Hpt : pipeline_times cfg = Ok pt).

Lemma step_ready_b64 s : s ∈ step_order cfg → step_ready cfg pt s.
Proof.
  intros Hs. destruct lookups_ok_pipeline_b64 as (pt' & Hpt' & Hall).
  assert (pt' = pt) as -> by congruence.
  destruct (Hall _ Hs) as (info & prev & Hi & Ht).
  destruct (lookups_ok_step_b64 _ Hs) as (info' & Hi' & Hk).
  assert (info' = info) as -> by congruence.
  by exists info, (ideal_times prev info).
Qed.

Lemma step_block_length_b64 cycle sh s :
  s ∈ step_order cfg → length (step_block cfg cycle pt sh s) = block_len cfg s.
Proof.
  intros (info & t & Hi & Ht & _)%step_ready_b64. unfold step_block, block_len.
  rewrite Hi, Ht. simpl. by rewrite length_fmap.
Qed.

Lemma cycle_block_length_b64 cycle sh l :
  l ⊆ step_order cfg →
  length (flat_map (step_block cfg cycle pt sh) l) = sum_list (block_len cfg <$> l).
Proof.
  induction l as [|x l IH]; intros Hl; simpl; [done|].
  rewrite length_app, step_block_length_b64, IH; [done|set_solver..].
Qed.

Lemma run_cycle_ok_b64 cycle st :
  tracked cfg (last_clean_end st) →
  ∃ sh st', shift (step_order cfg) (last_clean_end st) pt = Ok sh ∧
    run_cycle cfg cycle st = (Ok (), st') ∧
    schedule st' = schedule st ++ flat_map (step_block cfg cycle pt sh) (step_order cfg) ∧
    tracked cfg (last_clean_end st').
Proof.
  intros Htr.
  destruct (shift_fold_defined_b64 (last_clean_end st) pt (step_order cfg) 0%float)
    as [sh Hsh].
  { intros s Hs. split; [by apply Htr|].
    destruct (step_ready_b64 _ Hs) as (? & ? & _ & ? & _). eauto. }
  destruct (schedule_loop_ok_b64 cfg cycle pt sh (step_order cfg) st)
    as (st' & Hrun & Hsched & _ & Hlce); [by apply step_ready_b64|].
  exists sh, st'. split; [done|]. split; [|by split].
  unfold run_cycle, shift.
  by rewrite Hpt, bind_lift_ok_b64, bind_get_b64, Hsh, bind_lift_ok_b64.
Qed.

Lemma build_ok_b64 (k : nat) :
  (build cfg (Z.of_nat k)).1 = Ok () ∧ tracked cfg (tracker cfg (Z.of_nat k)) ∧
  length (schedule (build cfg (Z.of_nat k)).2) = (k * cycle_len cfg)%nat.
Proof.
  unfold tracker. induction k as [|k (Hok' & Htr & Hlen)].
  - rewrite build_nonpos_b64 by done. repeat split; try done.
    intros s Hs. cbn [snd]. by apply initial_tracker_b64.
  - replace (Z.of_nat (S k)) with (Z.of_nat k + 1)%Z by lia.
    rewrite build_succ_b64 by lia.
    destruct (build cfg (Z.of_nat k)) as [r st]. simpl in *. subst r.
    destruct (run_cycle_ok_b64 (Z.of_nat k + 1) st Htr) as (sh & st' & _ & -> & Hs & Htr').
    simpl. repeat split; try done.
    rewrite Hs, length_app, Hlen, cycle_block_length_b64 by done. unfold cycle_len. lia.
Qed.

(** What cycle [c] adds to the schedule left by cycle [c - 1]. *)
Lemma cycle_facts_b64 c :
  (1 ≤ c)%Z →
  ∃ sh, cycle_shift cfg c = Ok sh ∧
    schedule (build cfg c).2 =
      schedule (build cfg (c - 1)).2 ++ flat_map (step_block cfg c pt sh) (step_order cfg).
Proof.
  intros Hc.
  destruct (build_ok_b64 (Z.to_nat (c - 1))) as (Hok' & Htr & _).
  rewrite Z2Nat.id in Hok', Htr by lia.
  assert (build cfg c = match build cfg (c - 1) with
                        | (Ok _, st) => run_cycle cfg c st
                        | (Raise e, st) => (Raise e, st)
                        end) as E.
  { replace c with (c - 1 + 1)%Z at 1 by lia. rewrite build_succ_b64 by lia.
    by replace (c - 1 + 1)%Z with c by lia. }
  unfold cycle_shift, tracker in *. rewrite E, Hpt. clear E.
  destruct (build cfg (c - 1)) as [r st]. cbn [fst snd] in *. subst r.
  destruct (run_cycle_ok_b64 c st Htr) as (sh & st' & Hsh & -> & Hs & _).
  exists sh. by split.
Qed.

Lemma build_prefix_b64 n (d : nat) :
  (0 ≤ n)%Z →
  ∃ rest, schedule (build cfg (n + Z.of_nat d)).2 = schedule (build cfg n).2 ++ rest.
Proof.
  intros Hn. induction d as [|d [rest IH]].
  - exists []. rewrite app_nil_r. f_equal. f_equal. f_equal. lia.
  - destruct (cycle_facts_b64 (n + Z.of_nat (S d))) as (sh & _ & Hs); [lia|].
    replace (n + Z.of_nat (S d) - 1)%Z with (n + Z.of_nat d)%Z in Hs by lia.
    rewrite Hs, IH, <- app_assoc. eauto.
Qed.

(** The block of the [i]-th step of cycle [c] sits at [task_index]. *)
Lemma emitted_lookup_b64 sh N c i k s :
  (1 ≤ c ≤ N)%Z →
  cycle_shift cfg c = Ok sh → step_order cfg !! i = Some s →
  (k < block_len cfg s)%nat →
  emitted cfg N c i k = step_block cfg c pt sh s !! k.
Proof.
  intros Hc Hsh Hi Hk. unfold emitted, task_index.
  destruct (build_prefix_b64 c (Z.to_nat (N - c))) as [rest Hrest]; [lia|].
  replace (c + Z.of_nat (Z.to_nat (N - c)))%Z with N in Hrest by lia.
  destruct (cycle_facts_b64 c) as (sh' & Hsh' & Hs); [lia|].
  assert (sh' = sh) as -> by congruence.
  destruct (build_ok_b64 (Z.to_nat (c - 1))) as (_ & _ & Hlen).
  rewrite Z2Nat.id in Hlen by lia.
  rewrite Hrest, Hs. rewrite <- (take_drop_middle _ _ _ Hi) at 2.
  rewrite flat_map_app. simpl.
  rewrite <- !app_assoc, <- Nat.add_assoc.
  rewrite lookup_app_r by lia. rewrite Hlen, Nat.add_comm, Nat.add_sub.
  rewrite lookup_app_r; rewrite cycle_block_length_b64; try lia; try apply subseteq_take.
  rewrite Nat.add_comm, Nat.add_sub.
  rewrite lookup_app_l; [done|]. rewrite step_block_length_b64; [done|].
  by eapply list_elem_of_lookup_2.
Qed.

End binary64.

(** Everything one step of one cycle leaves in the schedule. *)
Lemma emitted_step_b64 cfg N c i s :
  B64.lookups_ok cfg = true → (1 ≤ c ≤ N)%Z → B64.step_order cfg !! i = Some s →
  ∃ pt sh info t prev,
    B64.pipeline_times cfg = Ok pt ∧ B64.cycle_shift cfg c = Ok sh ∧
    B64.steps cfg !! s = Some info ∧ pt !! s = Some t ∧
    t = B64.ideal_times prev info ∧
    B64.emitted cfg N c i 0 =
      Some (B64.setup_task s c (B64.setup_start t + sh) (B64.setup_end t + sh)) ∧
    B64.emitted cfg N c i 1 =
      Some (B64.operation_task s c (B64.op_start t + sh) (B64.op_end t + sh)) ∧
    B64.emitted cfg N c i 2 =
      Some (B64.cleaning_task s c (B64.clean_start t + sh) (B64.clean_end t + sh)) ∧
    (∀ j tank, B64.tanks info !! j = Some tank →
       B64.emitted cfg N c i (3 + j) =
         Some (B64.tank_interval cfg c (B64.setup_start t + sh) tank)).
Proof.
  intros Hok Hc Hi.
  destruct (lookups_ok_pipeline_b64 _ Hok) as (pt & Hpt & Hall).
  assert (s ∈ B64.step_order cfg) as Hs by by eapply list_elem_of_lookup_2.
  destruct (Hall _ Hs) as (info & prev & Hinfo & Ht).
  destruct (cycle_facts_b64 cfg Hok pt Hpt c) as (sh & Hsh & _); [lia|].
  exists pt, sh, info, (B64.ideal_times prev info), prev.
  assert (B64.block_len cfg s = (3 + length (B64.tanks info))%nat) as Hlen.
  { unfold B64.block_len. by rewrite Hinfo. }
  pose proof (emitted_lookup_b64 cfg Hok pt Hpt sh N c i) as Hlook.
  assert (∀ k, (k < 3 + length (B64.tanks info))%nat →
    B64.emitted cfg N c i k = B64.step_block cfg c pt sh s !! k) as Hk.
  { intros k Hk. apply Hlook; try done. lia. }
  unfold B64.step_block in Hk. rewrite Hinfo, Ht in Hk.
  repeat split; try done.
  - by rewrite Hk by lia.
  - by rewrite Hk by lia.
  - by rewrite Hk by lia.
  - intros j tank Hj. rewrite Hk.
    + simpl. by rewrite list_lookup_fmap, Hj.
    + apply lookup_lt_Some in Hj. lia.
Qed.

(** * The claims *)

(** C3. In the scenario of two steps A (3, 5, 1) and B (2, 4, 1) without
    resources, a build of two cycles succeeds and appends exactly the
    twelve intervals below, in this order; the shift of cycle 1 is 3 and
    the shift of cycle 2 is 12. *)
Theorem scenario_two_cycles :
  (build scenario 2).1 = Ok () ∧
  schedule (build scenario 2).2 =
    [ Interval "A Setup (Cycle 1)" 0 3 "A";
      Interval "A Operation (Cycle 1)" 3 8 "A";
      Interval "A Cleaning (Cycle 1)" 8 9 "A";
      Interval "B Setup (Cycle 1)" 6 8 "B";
      Interval "B Operation (Cycle 1)" 8 12 "B";
      Interval "B Cleaning (Cycle 1)" 12 13 "B";
      Interval "A Setup (Cycle 2)" 9 12 "A";
      Interval "A Operation (Cycle 2)" 12 17 "A";
      Interval "A Cleaning (Cycle 2)" 17 18 "A";
      Interval "B Setup (Cycle 2)" 15 17 "B";
      Interval "B Operation (Cycle 2)" 17 21 "B";
      Interval "B Cleaning (Cycle 2)" 21 22 "B" ] ∧
  cycle_shift scenario 1 = Ok 3 ∧
  cycle_shift scenario 2 = Ok 12.
Proof. vm_compute. done. Qed.

(** Zero-idle adjacency without rounding.  In the exact model of a valid
    configuration, for two steps [p] and [n] adjacent in the declared
    order, the Operation interval of [n] starts when the Operation
    interval of [p] ends: in the unshifted [pipeline_times] of a cycle,
    and between the Operation dictionaries that every cycle [c] of every
    build appends.  This is what the comment of line 48 announces; it
    rests on [(prev_op_end - setup) + setup] being [prev_op_end], which
    binary64 does not grant: the theorem after this one evaluates the
    program's arithmetic. *)
Theorem zero_idle_adjacency (cfg : config) (N c : Z) (i : nat) (p n : string) :
  valid_config cfg = true →
  (1 ≤ c ≤ N)%Z →
  step_order cfg !! i = Some p →
  step_order cfg !! S i = Some n →
  (∃ pt tp tn,
     pipeline_times cfg = Ok pt ∧ pt !! p = Some tp ∧ pt !! n = Some tn ∧
     op_start tn == op_end tp) ∧
  (∃ ip inx,
     emitted cfg N c i 1 = Some ip ∧
     emitted cfg N c (S i) 1 = Some inx ∧
     task ip = p +:+ " Operation (Cycle " +:+ pretty c +:+ ")" ∧
     task inx = n +:+ " Operation (Cycle " +:+ pretty c +:+ ")" ∧
     start inx == end_ ip).
Proof.
  intros Hv Hc Hp Hn.
  assert (∃ pt tp ib, pipeline_times cfg = Ok pt ∧ pt !! p = Some tp ∧
            steps cfg !! n = Some ib ∧
            pt !! n = Some (ideal_times (op_end tp) ib)) as (pt & tp & ib & Hpt & Htp & Hib & Htn).
  { destruct (valid_pipeline _ Hv) as (pt & Hpt & _).
    pose proof (valid_config_NoDup _ Hv) as Hnd.
    pose proof (take_drop_middle _ _ _ Hp) as Hsplit.
    assert (drop (S i) (step_order cfg) = n :: drop (S (S i)) (step_order cfg)) as Hd.
    { by apply drop_S. }
    rewrite Hd in Hsplit. rewrite <- Hsplit in Hnd.
    unfold pipeline_times in Hpt.
    destruct (foldM (pipeline_step cfg) (∅, 0) (step_order cfg)) as [acc|] eqn:E; [|done].
    injection Hpt as <-. rewrite <- Hsplit in E.
    destruct (pipeline_fold_adjacent _ _ _ _ _ _ _ Hnd E) as (ta & ib & ? & ? & ?).
    exists acc.1, ta, ib. repeat split; try done.
    unfold pipeline_times. rewrite <- Hsplit, E. done. }
  split.
  - exists pt, tp, (ideal_times (op_end tp) ib). repeat split; try done.
    simpl. lra.
  - destruct (emitted_step cfg N c i p Hv Hc Hp)
      as (pt1 & sh1 & i1 & t1 & ? & Hpt1 & Hsh1 & _ & Ht1 & _ & _ & Ho1 & _).
    destruct (emitted_step cfg N c (S i) n Hv Hc Hn)
      as (pt2 & sh2 & i2 & t2 & ? & Hpt2 & Hsh2 & _ & Ht2 & _ & _ & Ho2 & _).
    assert (pt1 = pt) as -> by congruence. assert (pt2 = pt) as -> by congruence.
    assert (sh2 = sh1) as -> by congruence.
    assert (t1 = tp) as -> by congruence.
    assert (t2 = ideal_times (op_end tp) ib) as -> by congruence.
    eexists _, _. split; [exact Ho1|]. split; [exact Ho2|].
    repeat split. simpl. lra.
Qed.

Lemma zero_idle_adjacency_witness :
  valid_config scenario = true ∧
  (1 ≤ 2 ≤ 2)%Z ∧
  step_order scenario !! 0%nat = Some "A" ∧
  step_order scenario !! 1%nat = Some "B" ∧
  (∃ pt tp tn,
     pipeline_times scenario = Ok pt ∧ pt !! "A" = Some tp ∧ pt !! "B" = Some tn ∧
     op_start tn == op_end tp) ∧
  (∃ ip inx,
     emitted scenario 2 2 0 1 = Some ip ∧
     emitted scenario 2 2 1 1 = Some inx ∧
     task ip = "A" +:+ " Operation (Cycle " +:+ pretty 2%Z +:+ ")" ∧
     task inx = "B" +:+ " Operation (Cycle " +:+ pretty 2%Z +:+ ")" ∧
     start inx == end_ ip).
Proof.
  split; [reflexivity|]. split; [lia|]. split; [reflexivity|]. split; [reflexivity|].
  apply (zero_idle_adjacency scenario 2 2 0 "A" "B"); [reflexivity|lia|reflexivity..].
Defined.

(** C1. Zero-idle adjacency is lost to rounding.  Steps A (0.1, 0.2, 0.1)
    and B (0.9, 0.1, 0.1) form a valid configuration.  Step 1 computes
    B's [op_start] as [(0.2 - 0.9) + 0.9], which is not A's [op_end] 0.2
    but 0.20000000000000007; after the shift 0.7 of cycle 1 the Operation
    interval of A ends at 0.8999999999999999 and the Operation interval
    of B starts at 0.9, later. *)
Theorem adjacency_lost_to_rounding :
  B64.valid_config B64.rounding_gap = true ∧
  (∃ pt, B64.pipeline_times B64.rounding_gap = Ok pt ∧
     B64.op_end <$> pt !! "A" = Some 0.2%float ∧
     B64.op_start <$> pt !! "B" = Some 0.20000000000000007%float) ∧
  B64.cycle_shift B64.rounding_gap 1 = Ok 0.7%float ∧
  B64.emitted B64.rounding_gap 1 1 0 1 =
    Some (B64.Interval "A Operation (Cycle 1)" 0.7 0.8999999999999999 "A") ∧
  B64.emitted B64.rounding_gap 1 1 1 1 =
    Some (B64.Interval "B Operation (Cycle 1)" 0.9 1 "B") ∧
  (0.2 <? 0.20000000000000007)%float = true ∧
  (0.8999999999999999 <? 0.9)%float = true.
Proof.
  split; [vm_compute; reflexivity|]. split.
  - eexists. split; [reflexivity|]. split; vm_compute; reflexivity.
  - repeat split; vm_compute; reflexivity.
Qed.

(** Resource non-reuse without rounding.  In the exact model of a valid
    configuration and a build of [N] cycles, for every cycle [c > 1]: the
    Setup interval of every step starts no earlier than the end of the
    Cleaning interval of the same step in cycle [c - 1]; and when the
    shift computed by cycle [c] is strictly positive, some step's Setup
    interval starts exactly at the end of its previous Cleaning interval.
    This is what the comment of line 67 announces; it rests on
    [setup_start + (last_clean_end - setup_start)] being [last_clean_end],
    which binary64 does not grant: the theorem after this one evaluates
    the program's arithmetic. *)
Theorem resource_non_reuse (cfg : config) (N c : Z) :
  valid_config cfg = true →
  (2 ≤ c ≤ N)%Z →
  (∀ i s, step_order cfg !! i = Some s →
     ∃ su cl,
       emitted cfg N c i 0 = Some su ∧
       emitted cfg N (c - 1) i 2 = Some cl ∧
       task su = s +:+ " Setup (Cycle " +:+ pretty c +:+ ")" ∧
       task cl = s +:+ " Cleaning (Cycle " +:+ pretty (c - 1)%Z +:+ ")" ∧
       end_ cl <= start su) ∧
  (∃ sh, cycle_shift cfg c = Ok sh ∧
     (0 < sh →
      ∃ i s su cl,
        step_order cfg !! i = Some s ∧
        emitted cfg N c i 0 = Some su ∧
        emitted cfg N (c - 1) i 2 = Some cl ∧
        start su == end_ cl)).
Proof.
  intros Hv Hc.
  destruct (valid_pipeline _ Hv) as (pt & Hpt & _).
  destruct (cycle_facts cfg Hv pt Hpt c) as (sh & Hsh & _); [lia|].
  assert (shift (step_order cfg) (tracker cfg (c - 1)) pt = Ok sh) as Hfold.
  { unfold cycle_shift in Hsh. by rewrite Hpt in Hsh. }
  assert (∀ i s, step_order cfg !! i = Some s →
    ∃ t sh', pt !! s = Some t ∧
      tracker cfg (c - 1) !! s = Some (clean_end t + sh') ∧
      emitted cfg N c i 0 =
        Some (setup_task s c (setup_start t + sh) (setup_end t + sh)) ∧
      emitted cfg N (c - 1) i 2 =
        Some (cleaning_task s (c - 1) (clean_start t + sh') (clean_end t + sh')))
    as Hem.
  { intros i s Hi.
    destruct (emitted_step cfg N c i s Hv) as
      (pt1 & sh1 & _ & t1 & _ & Hpt1 & Hsh1 & _ & Ht1 & _ & Hs1 & _); [lia|done|].
    destruct (emitted_step cfg N (c - 1) i s Hv) as
      (pt2 & sh2 & _ & t2 & _ & Hpt2 & _ & _ & Ht2 & _ & _ & _ & Hc2 & _ & Htr2);
      [lia|done|].
    assert (pt1 = pt) as -> by congruence. assert (pt2 = pt) as -> by congruence.
    assert (sh1 = sh) as -> by congruence. assert (t2 = t1) as -> by congruence.
    by exists t1, sh2. }
  split.
  - intros i s Hi. destruct (Hem i s Hi) as (t & sh' & Ht & Htr & Hsu & Hcl).
    eexists _, _. split; [exact Hsu|]. split; [exact Hcl|]. repeat split.
    destruct (shift_fold_bounds _ _ _ _ _ Hfold) as [_ Hb].
    destruct (Hb s) as (lv & t' & Hlv & Ht' & Hle); [by eapply list_elem_of_lookup_2|].
    assert (t' = t) as -> by congruence.
    assert (lv = clean_end t + sh') as -> by congruence.
    simpl. lra.
  - exists sh. split; [done|]. intros Hpos.
    destruct (shift_fold_attained _ _ _ _ _ Hfold) as [->|(s & lv & t & Hs & Hlv & Ht & Heq)];
      [lra|lra|].
    apply list_elem_of_lookup_1 in Hs as [i Hi].
    destruct (Hem i s Hi) as (t' & sh' & Ht' & Htr & Hsu & Hcl).
    assert (t' = t) as -> by congruence.
    assert (lv = clean_end t + sh') as Hlv' by congruence.
    eexists i, s, _, _. split; [done|]. split; [exact Hsu|]. split; [exact Hcl|].
    simpl. rewrite Heq, Hlv'. lra.
Qed.

Lemma resource_non_reuse_witness :
  valid_config scenario = true ∧
  (2 ≤ 2 ≤ 2)%Z ∧
  (∀ i s, step_order scenario !! i = Some s →
     ∃ su cl,
       emitted scenario 2 2 i 0 = Some su ∧
       emitted scenario 2 (2 - 1) i 2 = Some cl ∧
       task su = s +:+ " Setup (Cycle " +:+ pretty 2%Z +:+ ")" ∧
       task cl = s +:+ " Cleaning (Cycle " +:+ pretty (2 - 1)%Z +:+ ")" ∧
       end_ cl <= start su) ∧
  (∃ sh, cycle_shift scenario 2 = Ok sh ∧
     (0 < sh →
      ∃ i s su cl,
        step_order scenario !! i = Some s ∧
        emitted scenario 2 2 i 0 = Some su ∧
        emitted scenario 2 (2 - 1) i 2 = Some cl ∧
        start su == end_ cl)).
Proof.
  split; [reflexivity|]. split; [lia|].
  apply (resource_non_reuse scenario 2 2); [reflexivity|lia].
Defined.

(** C2. A step set up before its cleaning has ended.  Steps A (0.1, 0.1,
    0.1) and B (0.2, 0.4, 1.3) form a valid configuration.  In a build of
    two cycles the Cleaning interval of B in cycle 1 ends at
    1.9000000000000001; cycle 2 computes the shift 2.0, strictly
    positive, and the Setup interval of B in cycle 2 starts at 1.9,
    earlier.  No step is tight either: the Setup interval of A in cycle 2
    starts at 1.9, long after its Cleaning interval of cycle 1 ended at
    0.30000000000000004. *)
Theorem setup_before_cleaning_ends :
  B64.valid_config B64.early_setup = true ∧
  B64.cycle_shift B64.early_setup 2 = Ok 2%float ∧
  B64.emitted B64.early_setup 2 1 1 2 =
    Some (B64.Interval "B Cleaning (Cycle 1)" 0.6 1.9000000000000001 "B") ∧
  B64.emitted B64.early_setup 2 2 1 0 =
    Some (B64.Interval "B Setup (Cycle 2)" 1.9 2.1 "B") ∧
  (1.9 <? 1.9000000000000001)%float = true ∧
  B64.emitted B64.early_setup 2 1 0 2 =
    Some (B64.Interval "A Cleaning (Cycle 1)" 0.2 0.30000000000000004 "A") ∧
  B64.emitted B64.early_setup 2 2 0 0 =
    Some (B64.Interval "A Setup (Cycle 2)" 1.9 2 "A") ∧
  (0.30000000000000004 <? 1.9)%float = true.
Proof. repeat split; vm_compute; reflexivity. Qed.

(** C4. The cycle shift.  In a valid configuration the shift that cycle
    [c] computes is the formula of the specification evaluated on the
    tracker left by the earlier cycles, it is not negative, and the six
    boundaries of the three intervals each step appends in cycle [c] are
    the unshifted ones plus this one shift. *)
Theorem shift_resolver (cfg : config) (N c : Z) :
  valid_config cfg = true →
  (1 ≤ c ≤ N)%Z →
  ∃ pt sh,
    pipeline_times cfg = Ok pt ∧
    cycle_shift cfg c = Ok sh ∧
    sh == shift_spec (step_order cfg) (tracker cfg (c - 1)) pt ∧
    0 <= sh ∧
    ∀ i s, step_order cfg !! i = Some s →
      ∃ t su op cl,
        pt !! s = Some t ∧
        emitted cfg N c i 0 = Some su ∧
        emitted cfg N c i 1 = Some op ∧
        emitted cfg N c i 2 = Some cl ∧
        start su = setup_start t + sh ∧ end_ su = setup_end t + sh ∧
        start op = op_start t + sh ∧ end_ op = op_end t + sh ∧
        start cl = clean_start t + sh ∧ end_ cl = clean_end t + sh.
Proof.
  intros Hv Hc.
  destruct (valid_pipeline _ Hv) as (pt & Hpt & _).
  destruct (cycle_facts cfg Hv pt Hpt c) as (sh & Hsh & _); [lia|].
  assert (shift (step_order cfg) (tracker cfg (c - 1)) pt = Ok sh) as Hfold.
  { unfold cycle_shift in Hsh. by rewrite Hpt in Hsh. }
  exists pt, sh. split; [done|]. split; [done|].
  pose proof (shift_spec_nonneg (step_order cfg) (tracker cfg (c - 1)) pt) as Hnn.
  pose proof (shift_fold_formula _ _ _ _ _ Hfold (Qle_refl 0)) as Hf.
  destruct (Qmax_cases 0 (shift_spec (step_order cfg) (tracker cfg (c - 1)) pt))
    as [[? E]|[? E]]; rewrite E in Hf.
  all: split; [lra|]. all: split; [lra|].
  all: intros i s Hi.
  all: destruct (emitted_step cfg N c i s Hv) as
      (pt1 & sh1 & _ & t1 & _ & Hpt1 & Hsh1 & _ & Ht1 & _ & Hs1 & Ho1 & Hc1 & _);
      [lia|done|].
  all: assert (pt1 = pt) as -> by congruence.
  all: assert (sh1 = sh) as -> by congruence.
  all: eexists t1, _, _, _.
  all: split; [done|]; split; [exact Hs1|]; split; [exact Ho1|]; split; [exact Hc1|].
  all: by repeat split.
Qed.

Lemma shift_resolver_witness :
  valid_config scenario = true ∧
  (1 ≤ 2 ≤ 2)%Z ∧
  ∃ pt sh,
    pipeline_times scenario = Ok pt ∧
    cycle_shift scenario 2 = Ok sh ∧
    sh == shift_spec (step_order scenario) (tracker scenario (2 - 1)) pt ∧
    0 <= sh ∧
    ∀ i s, step_order scenario !! i = Some s →
      ∃ t su op cl,
        pt !! s = Some t ∧
        emitted scenario 2 2 i 0 = Some su ∧
        emitted scenario 2 2 i 1 = Some op ∧
        emitted scenario 2 2 i 2 = Some cl ∧
        start su = setup_start t + sh ∧ end_ su = setup_end t + sh ∧
        start op = op_start t + sh ∧ end_ op = op_end t + sh ∧
        start cl = clean_start t + sh ∧ end_ cl = clean_end t + sh.
Proof.
  split; [reflexivity|]. split; [lia|].
  apply (shift_resolver scenario 2 2); [reflexivity|lia].
Defined.

(** C5. Prefix stability.  In a valid configuration and for [N >= 0], the
    builds with [N] and with [N + 1] cycles both succeed, the schedule of
    [N] cycles holds [N] times the intervals of one cycle, and the schedule
    of [N + 1] cycles starts with exactly the schedule of [N] cycles. *)
Theorem prefix_stability (cfg : config) (N : Z) :
  valid_config cfg = true →
  (0 ≤ N)%Z →
  (build cfg N).1 = Ok () ∧
  (build cfg (N + 1)).1 = Ok () ∧
  length (schedule (build cfg N).2) = (Z.to_nat N * cycle_len cfg)%nat ∧
  length (schedule (build cfg (N + 1)).2) = (Z.to_nat (N + 1) * cycle_len cfg)%nat ∧
  take (length (schedule (build cfg N).2)) (schedule (build cfg (N + 1)).2)
    = schedule (build cfg N).2.
Proof.
  intros Hv HN.
  destruct (valid_build_ok cfg (Z.to_nat N) Hv) as (Hok & _ & Hlen).
  destruct (valid_build_ok cfg (Z.to_nat (N + 1)) Hv) as (Hok' & _ & Hlen').
  rewrite Z2Nat.id in Hok, Hlen, Hok', Hlen' by lia.
  repeat split; try done.
  destruct (valid_build_prefix cfg N 1 Hv HN) as [rest Hrest].
  replace (N + Z.of_nat 1)%Z with (N + 1)%Z in Hrest by lia.
  rewrite Hrest. by rewrite take_app_length.
Qed.

Lemma prefix_stability_witness :
  valid_config scenario = true ∧
  (0 ≤ 1)%Z ∧
  (build scenario 1).1 = Ok () ∧
  (build scenario (1 + 1)).1 = Ok () ∧
  length (schedule (build scenario 1).2) = (Z.to_nat 1 * cycle_len scenario)%nat ∧
  length (schedule (build scenario (1 + 1)).2)
    = (Z.to_nat (1 + 1) * cycle_len scenario)%nat ∧
  take (length (schedule (build scenario 1).2)) (schedule (build scenario (1 + 1)).2)
    = schedule (build scenario 1).2.
Proof.
  split; [reflexivity|]. split; [lia|].
  apply (prefix_stability scenario 1); [reflexivity|lia].
Defined.

(** C6. Monotone tracker.  In a valid configuration, the tracker entry of
    every step is 0 before cycle 1, and the value that cycle [n + 1] writes
    for the step, which is the end of the Cleaning interval it appends, is
    at least the value it replaces. *)
Theorem tracker_monotone (cfg : config) (n : Z) (i : nat) (s : string) :
  valid_config cfg = true →
  (0 ≤ n)%Z →
  step_order cfg !! i = Some s →
  tracker cfg 0 !! s = Some 0 ∧
  ∃ a b cl,
    tracker cfg n !! s = Some a ∧
    tracker cfg (n + 1) !! s = Some b ∧
    emitted cfg (n + 1) (n + 1) i 2 = Some cl ∧
    task cl = s +:+ " Cleaning (Cycle " +:+ pretty (n + 1)%Z +:+ ")" ∧
    end_ cl = b ∧
    a <= b.
Proof.
  intros Hv Hn Hi.
  assert (s ∈ step_order cfg) as Hs by by eapply list_elem_of_lookup_2.
  split.
  - unfold tracker. rewrite build_nonpos by done. by apply initial_tracker.
  - destruct (valid_build_ok cfg (Z.to_nat n) Hv) as (_ & Htr & _).
    rewrite Z2Nat.id in Htr by lia. destruct (Htr s Hs) as [a Ha].
    destruct (emitted_step cfg (n + 1) (n + 1) i s Hv) as
      (pt & sh & info & t & prev & Hpt & Hsh & Hinfo & Ht & -> & _ & _ & Hcl & _ & Hb);
      [lia|done|].
    eexists a, _, _. split; [done|]. split; [exact Hb|]. split; [exact Hcl|].
    split; [done|]. split; [done|].
    unfold cycle_shift in Hsh. rewrite Hpt in Hsh. simpl in Hsh.
    replace (n + 1 - 1)%Z with n in Hsh by lia.
    destruct (shift_fold_bounds _ _ _ _ _ Hsh) as [_ Hbound].
    destruct (Hbound s Hs) as (lv & t' & Hlv & Ht' & Hle).
    assert (lv = a) as -> by congruence.
    assert (t' = ideal_times prev info) as -> by congruence.
    destruct (valid_config_step _ Hv _ Hs) as (info' & Hinfo' & H1 & H2 & H3 & _).
    assert (info' = info) as -> by congruence.
    simpl in *. lra.
Qed.

Lemma tracker_monotone_witness :
  valid_config scenario = true ∧
  (0 ≤ 1)%Z ∧
  step_order scenario !! 1%nat = Some "B" ∧
  tracker scenario 0 !! "B" = Some 0 ∧
  ∃ a b cl,
    tracker scenario 1 !! "B" = Some a ∧
    tracker scenario (1 + 1) !! "B" = Some b ∧
    emitted scenario (1 + 1) (1 + 1) 1 2 = Some cl ∧
    task cl = "B" +:+ " Cleaning (Cycle " +:+ pretty (1 + 1)%Z +:+ ")" ∧
    end_ cl = b ∧
    a <= b.
Proof.
  split; [reflexivity|]. split; [lia|]. split; [reflexivity|].
  apply (tracker_monotone scenario 1 1 "B"); [reflexivity|lia|reflexivity].
Defined.

(** C7, as stated, fails.  Step B (0.7, 0.5, 0.1) follows step A (0.7,
    0.7, 0.1) and attaches tank T, whose cleaning takes 0.1.  The Setup
    interval of B starts at 0.7, and so does the interval of T, which
    ends at [0.7 + 0.1], that is 0.7999999999999999: the bar drawn for it
    has length 0.09999999999999998, less than the 0.1 of the table. *)
Lemma tank_bar_shorter_than_cleaning :
  B64.valid_config B64.short_bar = true ∧
  B64.tank_cleaning_time B64.short_bar !! "T" = Some 0.1%float ∧
  B64.emitted B64.short_bar 1 1 1 0 =
    Some (B64.Interval "B Setup (Cycle 1)" 0.7 1.4 "B") ∧
  B64.emitted B64.short_bar 1 1 1 3 =
    Some (B64.Interval "T Cleaning (Cycle 1)" 0.7 0.7999999999999999 "T") ∧
  B64.duration (B64.Interval "T Cleaning (Cycle 1)" 0.7 0.7999999999999999 "T") =
    0.09999999999999998%float ∧
  (0.09999999999999998 <? 0.1)%float = true.
Proof. repeat split; vm_compute; reflexivity. Qed.

(** C7, as the code has it.  When every lookup of the loop succeeds, for
    every cycle [c] of a build, every step [s] and the [j]-th tank
    attached to [s], the dictionary appended for the tank carries the
    tank's label and row, starts at the start of the Setup interval that
    [s] appends in cycle [c], and ends at the binary64 sum of that start
    and the tank's entry in [tank_cleaning_time]. *)
Theorem resource_cleaning_end_rounded (cfg : B64.config) (N c : Z) (i j : nat)
    (s tank : string) (info : B64.step_info) :
  B64.lookups_ok cfg = true →
  (1 ≤ c ≤ N)%Z →
  B64.step_order cfg !! i = Some s →
  B64.steps cfg !! s = Some info →
  B64.tanks info !! j = Some tank →
  ∃ su rc d,
    B64.emitted cfg N c i 0 = Some su ∧
    B64.task su = s +:+ " Setup (Cycle " +:+ pretty c +:+ ")" ∧
    B64.emitted cfg N c i (3 + j) = Some rc ∧
    B64.tank_cleaning_time cfg !! tank = Some d ∧
    B64.task rc = tank +:+ " Cleaning (Cycle " +:+ pretty c +:+ ")" ∧
    B64.row rc = tank ∧
    B64.start rc = B64.start su ∧
    B64.end_ rc = (B64.start rc + d)%float.
Proof.
  intros Hok Hc Hi Hinfo Hj.
  destruct (emitted_step_b64 cfg N c i s Hok Hc Hi) as
    (pt & sh & info' & t & _ & _ & _ & Hinfo' & _ & _ & Hsu & _ & _ & Htk).
  assert (info' = info) as -> by congruence.
  assert (s ∈ B64.step_order cfg) as Hs by by eapply list_elem_of_lookup_2.
  destruct (lookups_ok_step_b64 _ Hok _ Hs) as (info' & Hinfo'' & Hk).
  assert (info' = info) as -> by congruence.
  destruct (Hk tank) as [d Hd]; [by eapply list_elem_of_lookup_2|].
  eexists _, _, d. split; [exact Hsu|]. split; [done|].
  split; [exact (Htk _ _ Hj)|]. split; [done|].
  unfold B64.tank_interval. rewrite Hd. by repeat split.
Qed.

Lemma resource_cleaning_end_rounded_witness :
  B64.lookups_ok B64.plant = true ∧
  (1 ≤ 2 ≤ 3)%Z ∧
  B64.step_order B64.plant !! 3%nat = Some "D" ∧
  B64.steps B64.plant !! "D" = Some (B64.StepInfo 2 8 1 ["Tank1"; "Tank2"]) ∧
  B64.tanks (B64.StepInfo 2 8 1 ["Tank1"; "Tank2"]) !! 1%nat = Some "Tank2" ∧
  ∃ su rc d,
    B64.emitted B64.plant 3 2 3 0 = Some su ∧
    B64.task su = "D" +:+ " Setup (Cycle " +:+ pretty 2%Z +:+ ")" ∧
    B64.emitted B64.plant 3 2 3 (3 + 1) = Some rc ∧
    B64.tank_cleaning_time B64.plant !! "Tank2" = Some d ∧
    B64.task rc = "Tank2" +:+ " Cleaning (Cycle " +:+ pretty 2%Z +:+ ")" ∧
    B64.row rc = "Tank2" ∧
    B64.start rc = B64.start su ∧
    B64.end_ rc = (B64.start rc + d)%float.
Proof.
  split; [vm_compute; reflexivity|]. split; [lia|]. split; [reflexivity|].
  split; [vm_compute; reflexivity|]. split; [reflexivity|].
  apply (resource_cleaning_end_rounded B64.plant 3 2 3 1 "D" "Tank2"
           (B64.StepInfo 2 8 1 ["Tank1"; "Tank2"]));
    [vm_compute; reflexivity|lia|reflexivity|vm_compute; reflexivity|reflexivity].
Defined.

(** C9, as the code has it.  A negative cycle count makes the cycle loop
    run zero times: the build returns normally, with an empty schedule and
    the initial tracker, and raises nothing. *)
Theorem negative_cycle_count (cfg : config) (N : Z) :
  (N < 0)%Z →
  build cfg N = (Ok (), initial_state cfg) ∧
  schedule (build cfg N).2 = [].
Proof. intros HN. rewrite build_nonpos by lia. done. Qed.

Lemma negative_cycle_count_witness :
  (-3 < 0)%Z ∧
  build plant (-3) = (Ok (), initial_state plant) ∧
  schedule (build plant (-3)).2 = [].
Proof. split; [lia|]. apply (negative_cycle_count plant (-3)). lia. Defined.

(** C9, counterexample: with the cycle count -1 the build of the
    two-step scenario returns normally. *)
Lemma minus_one_cycles_no_error :
  (-1 < 0)%Z ∧ (build scenario (-1)).1 = Ok () ∧ schedule (build scenario (-1)).2 = [].
Proof. split; [lia|]. vm_compute. done. Qed.

(** C10. Shared resources are not mutually excluded across steps: there is
    a valid configuration in which two distinct steps attach the same
    tank and the two cleaning intervals appended for that tank in one
    cycle overlap in time. *)
Theorem shared_resource_overlap :
  ∃ cfg N c i1 i2 j1 j2 s1 s2 info1 info2 r x y,
    valid_config cfg = true ∧
    step_order cfg !! i1 = Some s1 ∧ step_order cfg !! i2 = Some s2 ∧ s1 ≠ s2 ∧
    steps cfg !! s1 = Some info1 ∧ steps cfg !! s2 = Some info2 ∧
    tanks info1 !! j1 = Some r ∧ tanks info2 !! j2 = Some r ∧
    emitted cfg N c i1 (3 + j1) = Some x ∧
    emitted cfg N c i2 (3 + j2) = Some y ∧
    row x = r ∧ row y = r ∧
    start x < end_ y ∧ start y < end_ x.
Proof.
  exists shared_tank, 1%Z, 1%Z, 0%nat, 1%nat, 0%nat, 0%nat, "A", "B",
    (StepInfo 3 1 0 ["T"]), (StepInfo 2 1 0 ["T"]), "T",
    (Interval "T Cleaning (Cycle 1)" 0 5 "T"),
    (Interval "T Cleaning (Cycle 1)" 2 7 "T").
  repeat split; try (vm_compute; reflexivity). done.
Qed.

(** ** Builds that meet an unknown resource *)

Lemma tanks_known_elem cfg l tank :
  tanks_known cfg l = true → tank ∈ l → is_Some (tank_cleaning_time cfg !! tank).
Proof.
  unfold tanks_known. rewrite forallb_forall. intros H Ht.
  apply list_elem_of_In, H in Ht. by apply bool_decide_eq_true in Ht.
Qed.

Lemma steps_defined_pipeline cfg :
  steps_defined cfg = true →
  ∃ pt, pipeline_times cfg = Ok pt ∧ ∀ s, s ∈ step_order cfg → is_Some (pt !! s).
Proof.
  unfold steps_defined. rewrite forallb_forall. intros Hd. unfold pipeline_times.
  destruct (pipeline_fold_defined cfg (step_order cfg) (∅, 0)) as [acc Hacc].
  { intros s Hs. apply list_elem_of_In, Hd in Hs. by apply bool_decide_eq_true in Hs. }
  rewrite Hacc. exists acc.1. split; [done|].
  intros s Hs. destruct (pipeline_fold_elem _ _ _ _ _ Hacc Hs) as (? & ? & _ & ->). eauto.
Qed.

Lemma build_raise cfg N e st :
  (1 ≤ N)%Z → run_cycle cfg 1 (initial_state cfg) = (Raise e, st) →
  build cfg N = (Raise e, st).
Proof.
  intros HN Hrun. unfold build, range. rewrite seqZ_cons by lia. simpl.
  by apply bind_raise.
Qed.

(** C8, as the code has it.  Let every declared step be defined, let [s]
    be the first step of the order that attaches a tank missing from
    [tank_cleaning_time], and [tank] the first such tank of [s].  With a
    cycle count of at most 0 the build returns normally with an empty
    schedule.  With a cycle count of at least 1 the build raises
    [KeyError tank] inside cycle 1, after it has appended every interval of
    the steps before [s], the Setup, Operation and Cleaning intervals of
    [s], and the cleaning intervals of the tanks of [s] before [tank]; no
    later cycle runs. *)
Theorem unknown_resource_failure (cfg : config) (l1 l2 k1 k2 : list string)
    (s tank : string) (info : step_info) :
  steps_defined cfg = true →
  step_order cfg = l1 ++ s :: l2 →
  forallb (step_tanks_known cfg) l1 = true →
  steps cfg !! s = Some info →
  tanks info = k1 ++ tank :: k2 →
  tanks_known cfg k1 = true →
  tank_cleaning_time cfg !! tank = None →
  (∀ N, (N ≤ 0)%Z → build cfg N = (Ok (), initial_state cfg)) ∧
  ∃ pt sh t,
    pipeline_times cfg = Ok pt ∧ cycle_shift cfg 1 = Ok sh ∧ pt !! s = Some t ∧
    ∀ N, (1 ≤ N)%Z →
      (build cfg N).1 = Raise (KeyError tank) ∧
      schedule (build cfg N).2 =
        flat_map (step_block cfg 1 pt sh) l1 ++
        setup_task s 1 (setup_start t + sh) (setup_end t + sh)
        :: operation_task s 1 (op_start t + sh) (op_end t + sh)
        :: cleaning_task s 1 (clean_start t + sh) (clean_end t + sh)
        :: (tank_interval cfg 1 (setup_start t + sh) <$> k1).
Proof.
  intros Hd Ho Hl1 Hinfo Hk Hk1 Hnone.
  split; [intros N HN; by apply build_nonpos|].
  destruct (steps_defined_pipeline _ Hd) as (pt & Hpt & Hall).
  destruct (shift_fold_defined (last_clean_end (initial_state cfg)) pt (step_order cfg) 0)
    as [sh Hsh].
  { intros x Hx. split; [|by apply Hall]. rewrite initial_tracker by done. eauto. }
  destruct (Hall s) as [t Ht]; [rewrite Ho; set_solver|].
  exists pt, sh, t. split; [done|]. split.
  { unfold cycle_shift, tracker. rewrite Hpt, build_nonpos by done. exact Hsh. }
  split; [done|]. intros N HN.
  destruct (schedule_loop_ok cfg 1 pt sh l1 (initial_state cfg)) as (st1 & Hrun1 & Hs1 & _).
  { intros x Hx. rewrite forallb_forall in Hl1.
    pose proof (Hl1 x (proj1 (list_elem_of_In _ _) Hx)) as Hx'.
    unfold step_tanks_known in Hx'. destruct (steps cfg !! x) as [ix|] eqn:Eix; [|done].
    destruct (Hall x) as [tx Htx]; [rewrite Ho; set_solver|].
    exists ix, tx. repeat split; try done. intros ? ?. by eapply tanks_known_elem. }
  erewrite (build_raise cfg N); [split; [reflexivity|]|done|].
  2:{ unfold run_cycle, shift. rewrite Hpt, bind_lift_ok, bind_get, Hsh, bind_lift_ok.
      rewrite Ho. rewrite (for_each_ok_app _ _ _ _ _ Hrun1). simpl.
      apply bind_raise.
      apply (schedule_step_raise cfg 1 pt sh s info t k1 tank k2 st1 Hinfo Ht Hk);
        [|done]. intros ? ?. by eapply tanks_known_elem. }
  simpl. by rewrite Hs1.
Qed.

Lemma unknown_resource_failure_witness :
  steps_defined unknown_tank = true ∧
  step_order unknown_tank = [] ++ "A" :: [] ∧
  forallb (step_tanks_known unknown_tank) [] = true ∧
  steps unknown_tank !! "A" = Some (StepInfo 3 5 1 ["T"]) ∧
  tanks (StepInfo 3 5 1 ["T"]) = [] ++ "T" :: [] ∧
  tanks_known unknown_tank [] = true ∧
  tank_cleaning_time unknown_tank !! "T" = None ∧
  (∀ N, (N ≤ 0)%Z → build unknown_tank N = (Ok (), initial_state unknown_tank)) ∧
  ∃ pt sh t,
    pipeline_times unknown_tank = Ok pt ∧ cycle_shift unknown_tank 1 = Ok sh ∧
    pt !! "A" = Some t ∧
    ∀ N, (1 ≤ N)%Z →
      (build unknown_tank N).1 = Raise (KeyError "T") ∧
      schedule (build unknown_tank N).2 =
        flat_map (step_block unknown_tank 1 pt sh) [] ++
        setup_task "A" 1 (setup_start t + sh) (setup_end t + sh)
        :: operation_task "A" 1 (op_start t + sh) (op_end t + sh)
        :: cleaning_task "A" 1 (clean_start t + sh) (clean_end t + sh)
        :: (tank_interval unknown_tank 1 (setup_start t + sh) <$> []).
Proof.
  split; [reflexivity|]. split; [reflexivity|]. split; [reflexivity|].
  split; [reflexivity|]. split; [reflexivity|]. split; [reflexivity|].
  split; [reflexivity|].
  apply (unknown_resource_failure unknown_tank [] [] [] [] "A" "T" (StepInfo 3 5 1 ["T"]));
    reflexivity.
Defined.

(** C8, counterexample: the only step of [unknown_tank] attaches a tank
    that is missing from the table; with 0 cycles the build returns
    normally, and with 1 cycle it raises [KeyError] after three intervals
    have been appended. *)
Lemma unknown_tank_not_rejected_upfront :
  references_unknown_resource unknown_tank ∧
  (build unknown_tank 0).1 = Ok () ∧
  (build unknown_tank 1).1 = Raise (KeyError "T") ∧
  schedule (build unknown_tank 1).2 =
    [ Interval "A Setup (Cycle 1)" 0 3 "A";
      Interval "A Operation (Cycle 1)" 3 8 "A";
      Interval "A Cleaning (Cycle 1)" 8 9 "A" ].
Proof.
  split.
  - exists "A", (StepInfo 3 5 1 ["T"]), "T". repeat split; try done; set_solver.
  - vm_compute. done.
Qed.

(** * Further properties of the cycle loop *)

Lemma valid_config_tank cfg s info tank :
  valid_config cfg = true → s ∈ step_order cfg → steps cfg !! s = Some info →
  tank ∈ tanks info →
  ∃ d, tank_cleaning_time cfg !! tank = Some d ∧ 0 <= d.
Proof.
  unfold valid_config. intros [_ H]%andb_true_iff Hs Hinfo Ht.
  rewrite forallb_forall in H. apply list_elem_of_In, H in Hs.
  unfold valid_step in Hs. rewrite Hinfo in Hs.
  apply andb_true_iff in Hs as [_ Hk]. rewrite forallb_forall in Hk.
  apply list_elem_of_In, Hk in Ht.
  destruct (tank_cleaning_time cfg !! tank) as [d|]; [|done].
  exists d. split; [done|]. by apply nonneg_le.
Qed.

(** The first step of the order is timed from 0. *)
Lemma pipeline_first cfg s0 l pt :
  valid_config cfg = true → step_order cfg = s0 :: l → pipeline_times cfg = Ok pt →
  ∃ info, steps cfg !! s0 = Some info ∧ pt !! s0 = Some (ideal_times 0 info).
Proof.
  intros Hv Ho Hpt. pose proof (valid_config_NoDup _ Hv) as Hnd.
  rewrite Ho in Hnd. apply NoDup_cons in Hnd as [Hnin _].
  unfold pipeline_times in Hpt. rewrite Ho in Hpt. simpl in Hpt.
  destruct (pipeline_step cfg (∅, 0) s0) as [a1|] eqn:E1; [|done]. simpl in Hpt.
  destruct (foldM (pipeline_step cfg) a1 l) as [acc|] eqn:E2; [|done].
  injection Hpt as <-.
  apply pipeline_step_ok in E1 as (info & Hinfo & ->).
  exists info. split; [done|].
  rewrite (pipeline_fold_notin _ _ _ _ _ E2 Hnin). simpl. by rewrite lookup_insert_eq.
Qed.

(** The shift of a cycle, unfolded to the loop over the tracker. *)
Lemma cycle_shift_fold cfg pt c sh :
  pipeline_times cfg = Ok pt → cycle_shift cfg c = Ok sh →
  foldM (shift_step (tracker cfg (c - 1)) pt) 0 (step_order cfg) = Ok sh.
Proof. intros Hpt. unfold cycle_shift. by rewrite Hpt. Qed.

(** Every tracker entry of a valid build is at least 0. *)
Lemma tracker_nonneg cfg (k : nat) s v :
  valid_config cfg = true → s ∈ step_order cfg →
  tracker cfg (Z.of_nat k) !! s = Some v → 0 <= v.
Proof.
  intros Hv Hs. destruct (valid_pipeline _ Hv) as (pt & Hpt & Hall).
  revert v. induction k as [|k IH]; intros v.
  - unfold tracker. rewrite build_nonpos by done. cbn [snd].
    rewrite initial_tracker by done. intros [= <-]. lra.
  - destruct (cycle_facts cfg Hv pt Hpt (Z.of_nat (S k))) as (sh & Hsh & _ & Htr); [lia|].
    destruct (Hall _ Hs) as (info & prev & Hinfo & Ht).
    rewrite (Htr _ _ Hs Ht). intros [= <-].
    apply (cycle_shift_fold _ _ _ _ Hpt) in Hsh.
    replace (Z.of_nat (S k) - 1)%Z with (Z.of_nat k) in Hsh by lia.
    destruct (shift_fold_bounds _ _ _ _ _ Hsh) as [_ Hb].
    destruct (Hb s Hs) as (lv & t' & Hlv & Ht' & Hle).
    assert (t' = ideal_times prev info) as -> by congruence.
    pose proof (IH _ Hlv) as H0.
    destruct (valid_config_step _ Hv _ Hs) as (info' & Hinfo' & H1 & H2 & H3 & _).
    assert (info' = info) as -> by congruence.
    simpl in *. lra.
Qed.

(** X1. In the schedule of a valid configuration every interval starts at
    a time that is not negative and does not end before it starts. *)
Theorem schedule_times_well_formed (cfg : config) (N : Z) (j : nat) (iv : interval) :
  valid_config cfg = true →
  schedule (build cfg N).2 !! j = Some iv →
  0 <= start iv ∧ start iv <= end_ iv.
Proof.
  intros Hv Hj. apply list_elem_of_lookup_2 in Hj. revert Hj.
  destruct (valid_pipeline _ Hv) as (pt & Hpt & Hall).
  destruct (Z.le_gt_cases N 0) as [HN|HN].
  { rewrite build_nonpos by done. simpl. by intros ?%elem_of_nil. }
  rewrite <- (Z2Nat.id N) by lia. generalize (Z.to_nat N) as k. clear N HN.
  induction k as [|k IH].
  - rewrite build_nonpos by done. simpl. by intros ?%elem_of_nil.
  - destruct (cycle_facts cfg Hv pt Hpt (Z.of_nat (S k))) as (sh & Hsh & Hs & _); [lia|].
    replace (Z.of_nat (S k) - 1)%Z with (Z.of_nat k) in Hs by lia.
    rewrite Hs. intros [Hin|Hin]%elem_of_app; [by apply IH|].
    apply list_elem_of_In, in_flat_map in Hin as (s & Hsin & Hin).
    apply list_elem_of_In in Hsin, Hin.
    destruct (Hall _ Hsin) as (info & prev & Hinfo & Ht).
    apply (cycle_shift_fold _ _ _ _ Hpt) in Hsh.
    replace (Z.of_nat (S k) - 1)%Z with (Z.of_nat k) in Hsh by lia.
    destruct (shift_fold_bounds _ _ _ _ _ Hsh) as [_ Hb].
    destruct (Hb s Hsin) as (lv & t' & Hlv & Ht' & Hle).
    assert (t' = ideal_times prev info) as -> by congruence.
    pose proof (tracker_nonneg _ _ _ _ Hv Hsin Hlv) as H0.
    destruct (valid_config_step _ Hv _ Hsin) as (info' & Hinfo' & H1 & H2 & H3 & _).
    assert (info' = info) as -> by congruence.
    unfold step_block in Hin. rewrite Hinfo, Ht in Hin.
    repeat (apply elem_of_cons in Hin as [->|Hin]); simpl in *; try lra.
    apply list_elem_of_fmap in Hin as (tank & -> & Htank).
    destruct (valid_config_tank _ _ _ _ Hv Hsin Hinfo Htank) as (d & Hd & Hd0).
    unfold tank_interval. rewrite Hd. simpl. lra.
Qed.

Lemma schedule_times_well_formed_witness :
  valid_config plant = true ∧
  schedule (build plant 1).2 !! 9%nat
    = Some (Interval "Tank4 Cleaning (Cycle 1)" 12 14 "Tank4") ∧
  0 <= start (Interval "Tank4 Cleaning (Cycle 1)" 12 14 "Tank4") ∧
  start (Interval "Tank4 Cleaning (Cycle 1)" 12 14 "Tank4")
    <= end_ (Interval "Tank4 Cleaning (Cycle 1)" 12 14 "Tank4").
Proof.
  split; [vm_compute; reflexivity|]. split; [vm_compute; reflexivity|].
  apply (schedule_times_well_formed plant 1 9); vm_compute; reflexivity.
Defined.

(** X2. When every lookup of the loop succeeds, the three intervals a
    step appends in a cycle carry the labels of the three phases on the
    row of the step and are chained without a gap, in the program's own
    arithmetic: Setup ends at the very float at which Operation starts,
    and Operation ends at the very float at which Cleaning starts. *)
Theorem phases_chained_binary64 (cfg : B64.config) (N c : Z) (i : nat) (s : string) :
  B64.lookups_ok cfg = true →
  (1 ≤ c ≤ N)%Z →
  B64.step_order cfg !! i = Some s →
  ∃ su op cl,
    B64.emitted cfg N c i 0 = Some su ∧
    B64.emitted cfg N c i 1 = Some op ∧
    B64.emitted cfg N c i 2 = Some cl ∧
    B64.task su = s +:+ " Setup (Cycle " +:+ pretty c +:+ ")" ∧
    B64.task op = s +:+ " Operation (Cycle " +:+ pretty c +:+ ")" ∧
    B64.task cl = s +:+ " Cleaning (Cycle " +:+ pretty c +:+ ")" ∧
    B64.row su = s ∧ B64.row op = s ∧ B64.row cl = s ∧
    B64.end_ su = B64.start op ∧ B64.end_ op = B64.start cl.
Proof.
  intros Hok Hc Hi.
  destruct (emitted_step_b64 cfg N c i s Hok Hc Hi) as
    (pt & sh & info & t & prev & _ & _ & _ & _ & -> & Hsu & Hop & Hcl & _).
  eexists _, _, _. split; [exact Hsu|]. split; [exact Hop|]. split; [exact Hcl|].
  by repeat split.
Qed.

Lemma phases_chained_binary64_witness :
  B64.lookups_ok B64.rounding_gap = true ∧
  (1 ≤ 1 ≤ 2)%Z ∧
  B64.step_order B64.rounding_gap !! 0%nat = Some "A" ∧
  ∃ su op cl,
    B64.emitted B64.rounding_gap 2 1 0 0 = Some su ∧
    B64.emitted B64.rounding_gap 2 1 0 1 = Some op ∧
    B64.emitted B64.rounding_gap 2 1 0 2 = Some cl ∧
    B64.task su = "A" +:+ " Setup (Cycle " +:+ pretty 1%Z +:+ ")" ∧
    B64.task op = "A" +:+ " Operation (Cycle " +:+ pretty 1%Z +:+ ")" ∧
    B64.task cl = "A" +:+ " Cleaning (Cycle " +:+ pretty 1%Z +:+ ")" ∧
    B64.row su = "A" ∧ B64.row op = "A" ∧ B64.row cl = "A" ∧
    B64.end_ su = B64.start op ∧ B64.end_ op = B64.start cl.
Proof.
  split; [vm_compute; reflexivity|]. split; [lia|]. split; [reflexivity|].
  apply (phases_chained_binary64 B64.rounding_gap 2 1 0 "A");
    [vm_compute; reflexivity|lia|reflexivity].
Defined.

(** X3. In a valid configuration with at least one step, a build of at
    least one cycle has a step whose Setup interval of cycle 1 starts at
    time 0: the first cycle is shifted just enough to begin at 0. *)
Theorem schedule_starts_at_zero (cfg : config) (N : Z) (s0 : string) :
  valid_config cfg = true →
  (1 ≤ N)%Z →
  step_order cfg !! 0%nat = Some s0 →
  ∃ i s su,
    step_order cfg !! i = Some s ∧
    emitted cfg N 1 i 0 = Some su ∧
    task su = s +:+ " Setup (Cycle " +:+ pretty 1%Z +:+ ")" ∧
    start su == 0.
Proof.
  intros Hv HN H0.
  destruct (valid_pipeline _ Hv) as (pt & Hpt & Hall).
  destruct (cycle_facts cfg Hv pt Hpt 1) as (sh & Hsh & _); [lia|].
  pose proof (cycle_shift_fold _ _ _ _ Hpt Hsh) as Hfold.
  assert (tracker cfg (1 - 1) = last_clean_end (initial_state cfg)) as Htr.
  { unfold tracker. by rewrite build_nonpos. }
  rewrite Htr in Hfold.
  assert (∀ i s t, step_order cfg !! i = Some s → pt !! s = Some t →
    emitted cfg N 1 i 0 = Some (setup_task s 1 (setup_start t + sh) (setup_end t + sh)))
    as Hem.
  { intros i s t Hi Ht.
    destruct (emitted_step cfg N 1 i s Hv) as
      (pt1 & sh1 & _ & t1 & _ & Hpt1 & Hsh1 & _ & Ht1 & _ & Hsu & _); [lia|done|].
    assert (pt1 = pt) as -> by congruence. assert (sh1 = sh) as -> by congruence.
    assert (t1 = t) as -> by congruence. done. }
  destruct (shift_fold_attained _ _ _ _ _ Hfold) as [->|(s & lv & t & Hs & Hlv & Ht & Heq)];
    [lra| |].
  - assert (∃ l, step_order cfg = s0 :: l) as [l Ho].
    { destruct (step_order cfg) as [|x l]; [done|]. injection H0 as ->. eauto. }
    destruct (pipeline_first cfg s0 l pt Hv Ho Hpt) as (info & Hinfo & Ht).
    assert (s0 ∈ step_order cfg) as Hs0 by (rewrite Ho; by left).
    destruct (shift_fold_bounds _ _ _ _ _ Hfold) as [_ Hb].
    destruct (Hb s0 Hs0) as (lv & t' & Hlv & Ht' & Hle).
    assert (t' = ideal_times 0 info) as -> by congruence.
    rewrite initial_tracker in Hlv by done. injection Hlv as <-.
    destruct (valid_config_step _ Hv _ Hs0) as (info' & Hinfo' & H1 & _).
    assert (info' = info) as -> by congruence.
    exists 0%nat, s0, (setup_task s0 1 (setup_start (ideal_times 0 info) + 0)
                                       (setup_end (ideal_times 0 info) + 0)).
    split; [done|]. split; [by apply Hem|]. split; [done|]. simpl in *. lra.
  - rewrite initial_tracker in Hlv by done. injection Hlv as <-.
    apply list_elem_of_lookup_1 in Hs as [i Hi].
    eexists i, s, _. split; [done|]. split; [by apply Hem|]. split; [done|].
    simpl. rewrite Heq. lra.
Qed.

Lemma schedule_starts_at_zero_witness :
  valid_config plant = true ∧
  (1 ≤ 2)%Z ∧
  step_order plant !! 0%nat = Some "A" ∧
  ∃ i s su,
    step_order plant !! i = Some s ∧
    emitted plant 2 1 i 0 = Some su ∧
    task su = s +:+ " Setup (Cycle " +:+ pretty 1%Z +:+ ")" ∧
    start su == 0.
Proof.
  split; [vm_compute; reflexivity|]. split; [lia|]. split; [reflexivity|].
  apply (schedule_starts_at_zero plant 2 "A"); [vm_compute; reflexivity|lia|reflexivity].
Defined.

(** X6. When the order names a step that [steps] lacks, a build of at
    least one cycle raises [KeyError] on the first such step while it
    computes the pipeline times of cycle 1: nothing has been appended and
    the tracker still holds its initial zeros. *)
Theorem undefined_step_failure (cfg : config) (N : Z) (l1 l2 : list string) (s : string) :
  step_order cfg = l1 ++ s :: l2 →
  forallb (λ x, bool_decide (is_Some (steps cfg !! x))) l1 = true →
  steps cfg !! s = None →
  (1 ≤ N)%Z →
  build cfg N = (Raise (KeyError s), initial_state cfg).
Proof.
  intros Ho Hl1' Hs HN. apply build_raise; [done|].
  assert (∀ x, x ∈ l1 → is_Some (steps cfg !! x)) as Hl1.
  { intros x Hx. rewrite forallb_forall in Hl1'.
    apply list_elem_of_In, Hl1' in Hx. by apply bool_decide_eq_true in Hx. }
  assert (pipeline_times cfg = Raise (KeyError s)) as Hpt.
  { unfold pipeline_times. rewrite Ho, foldM_app.
    destruct (pipeline_fold_defined cfg l1 (∅, 0) Hl1) as [acc ->].
    assert (pipeline_step cfg acc s = Raise (KeyError s)) as E.
    { unfold pipeline_step. by rewrite (lookup_key_None _ _ Hs). }
    cbn [mbind result_bind foldM]. by rewrite E. }
  unfold run_cycle. by rewrite Hpt, bind_lift_raise.
Qed.

Lemma undefined_step_failure_witness :
  step_order undefined_step = ["A"] ++ "B" :: [] ∧
  forallb (λ x, bool_decide (is_Some (steps undefined_step !! x))) ["A"] = true ∧
  steps undefined_step !! "B" = None ∧
  (1 ≤ 4)%Z ∧
  build undefined_step 4 = (Raise (KeyError "B"), initial_state undefined_step).
Proof.
  split; [reflexivity|]. split; [reflexivity|]. split; [reflexivity|]. split; [lia|].
  apply (undefined_step_failure undefined_step 4 ["A"] [] "B");
    [reflexivity|reflexivity|reflexivity|lia].
Defined.

(** * The number of cycles *)

Lemma py_min_fold_spec (l : list Q) (x : Q) :
  let m := foldl (λ m y, if gtb m y then y else m) x l in
  m ∈ x :: l ∧ ∀ y, y ∈ x :: l → m <= y.
Proof.
  revert x. induction l as [|z l IH]; intros x; simpl.
  - split; [by left|]. intros y ->%list_elem_of_singleton. lra.
  - destruct (IH (if gtb x z then z else x)) as [Hin Hle].
    destruct (gtb x z) eqn:G; [apply gtb_true in G|apply gtb_false in G].
    + split; [by right|]. intros y [->|Hy]%elem_of_cons; [|by apply Hle].
      specialize (Hle z ltac:(by left)). lra.
    + split.
      * apply elem_of_cons in Hin as [->|Hin]; [by left|by do 2 right].
      * intros y [->|[->|Hy]%elem_of_cons]%elem_of_cons.
        -- apply Hle. by left.
        -- specialize (Hle x ltac:(by left)). lra.
        -- apply Hle. by right.
Qed.

Lemma elem_of_step_durations steps (d : Q) :
  d ∈ (map_to_list (step_durations steps)).*2 ↔
  ∃ s info, steps !! s = Some info ∧ d = step_duration info.
Proof.
  rewrite list_elem_of_fmap. split.
  - intros ([s d'] & -> & Hin). apply elem_of_map_to_list in Hin.
    unfold step_durations in Hin. rewrite lookup_fmap in Hin.
    destruct (steps !! s) as [info|] eqn:E; [|done].
    injection Hin as <-. eauto.
  - intros (s & info & Hs & ->). exists (s, step_duration info). split; [done|].
    apply elem_of_map_to_list. unfold step_durations. by rewrite lookup_fmap, Hs.
Qed.

Lemma min_step_duration_cases (steps : gmap string step_info) :
  match min_step_duration steps with
  | Throws e => e = ValueError ∧ steps = ∅
  | Returns m =>
      (∃ s info, steps !! s = Some info ∧ m = step_duration info) ∧
      (∀ s info, steps !! s = Some info → m <= step_duration info)
  end.
Proof.
  unfold min_step_duration.
  pose proof (elem_of_step_durations steps) as Hel.
  destruct ((map_to_list (step_durations steps)).*2) as [|x l] eqn:E; simpl.
  - split; [done|]. apply map_empty. intros s.
    destruct (steps !! s) as [info|] eqn:Hs; [|done].
    assert (step_duration info ∈ @nil Q) as Hin by (apply Hel; eauto).
    by apply elem_of_nil in Hin.
  - destruct (py_min_fold_spec l x) as [Hin Hle]. split.
    + by apply Hel.
    + intros s info Hs. apply Hle, Hel. eauto.
Qed.

(** X7. [min_step_duration] raises [ValueError] exactly when [steps] is
    empty; otherwise it returns the duration of some entry of [steps], and
    no entry of [steps] has a smaller duration, whether or not the entry
    is in [step_order]. *)
Theorem min_step_duration_spec (steps : gmap string step_info) :
  (steps = ∅ ↔ min_step_duration steps = Throws ValueError) ∧
  (∀ e, min_step_duration steps = Throws e → e = ValueError) ∧
  (∀ m, min_step_duration steps = Returns m →
     (∃ s info, steps !! s = Some info ∧ m = step_duration info) ∧
     (∀ s info, steps !! s = Some info → m <= step_duration info)).
Proof.
  pose proof (min_step_duration_cases steps) as H.
  destruct (min_step_duration steps) as [m|e].
  - split; [split; [|done]|split; [done|]].
    + intros ->. destruct H as [(s & info & Hs & _) _]. by rewrite lookup_empty in Hs.
    + by intros ? [= <-].
  - destruct H as [-> ->]. split; [done|]. split; [|done]. by intros ? [= <-].
Qed.

(** X11. For a valid configuration [run_simulation] never fails inside the
    cycle loop: whenever the number of cycles can be computed it returns
    the schedule of that many cycles, which holds that many times the
    intervals of one cycle (none when the number is negative). *)
Theorem run_simulation_valid (cfg : config) (days bio : Q) (n : Z) :
  valid_config cfg = true →
  num_cycles (steps cfg) days bio = Returns n →
  run_simulation cfg days bio = Returns (schedule (build cfg n).2) ∧
  length (schedule (build cfg n).2) = (Z.to_nat n * cycle_len cfg)%nat.
Proof.
  intros Hv Hn. unfold run_simulation. rewrite Hn. cbn [mbind outcome_bind].
  destruct (Z.le_gt_cases n 0) as [H0|H0].
  - rewrite build_nonpos by done. simpl. split; [done|].
    replace (Z.to_nat n) with 0%nat by lia. done.
  - destruct (valid_build_ok cfg (Z.to_nat n) Hv) as (Hok & _ & Hlen).
    rewrite Z2Nat.id in Hok, Hlen by lia.
    destruct (build cfg n) as [r st]. simpl in *. by subst r.
Qed.

Lemma run_simulation_valid_witness :
  valid_config plant = true ∧
  num_cycles (steps plant) 14 3 = Returns 8%Z ∧
  run_simulation plant 14 3 = Returns (schedule (build plant 8).2) ∧
  length (schedule (build plant 8).2) = (Z.to_nat 8 * cycle_len plant)%nat.
Proof.
  split; [vm_compute; reflexivity|]. split; [vm_compute; reflexivity|].
  apply (run_simulation_valid plant 14 3 8); vm_compute; reflexivity.
Defined.

(** * The rows of the chart *)

Global Instance row_le_trans (order : list string) : Transitive (row_le order).
Proof.
  intros a b c. unfold row_le, key_le, row_key. simpl.
  destruct (bool_decide (a ∉ order)), (bool_decide (b ∉ order)),
    (bool_decide (c ∉ order)); try done; apply transitivity.
Qed.

Global Instance row_le_total (order : list string) : Total (row_le order).
Proof.
  intros a b. unfold row_le, key_le, row_key. simpl.
  destruct (bool_decide (a ∉ order)), (bool_decide (b ∉ order)); auto;
    apply (total String.le).
Qed.

Global Instance row_le_antisym (order : list string) : AntiSymm (=) (row_le order).
Proof.
  intros a b. unfold row_le, key_le, row_key. simpl.
  destruct (bool_decide (a ∉ order)), (bool_decide (b ∉ order)); try done;
    apply (anti_symm String.le).
Qed.

Lemma row_le_steps_first order a b :
  row_le order a b → b ∈ order → a ∈ order.
Proof.
  unfold row_le, key_le, row_key. simpl. intros H Hb.
  rewrite (bool_decide_eq_false_2 (b ∉ order)) in H by auto.
  destruct (decide (a ∈ order)) as [|Ha]; [done|].
  by rewrite (bool_decide_eq_true_2 (a ∉ order)) in H.
Qed.

Lemma row_le_same_group order a b :
  row_le order a b → (a ∈ order ↔ b ∈ order) → String.le a b.
Proof.
  unfold row_le, key_le, row_key. simpl. intros H Hab.
  destruct (decide (a ∈ order)) as [Ha|Ha].
  - rewrite (bool_decide_eq_false_2 (a ∉ order)),
      (bool_decide_eq_false_2 (b ∉ order)) in H; [done|..]; intros ?; tauto.
  - rewrite (bool_decide_eq_true_2 (a ∉ order)),
      (bool_decide_eq_true_2 (b ∉ order)) in H; [done|..]; tauto.
Qed.

Lemma rows_NoDup order sched : NoDup (rows order sched).
Proof.
  unfold rows. rewrite merge_sort_Permutation. apply NoDup_remove_dups.
Qed.

Lemma elem_of_rows order sched r :
  r ∈ rows order sched ↔ ∃ iv, iv ∈ sched ∧ row iv = r.
Proof.
  unfold rows. rewrite merge_sort_Permutation, elem_of_remove_dups, list_elem_of_fmap.
  split; [intros (iv & -> & Hin)|intros (iv & Hin & <-)]; eauto.
Qed.

Lemma step_block_rows cfg c pt sh s iv :
  iv ∈ step_block cfg c pt sh s →
  row iv = s ∨ ∃ info, steps cfg !! s = Some info ∧ row iv ∈ tanks info.
Proof.
  unfold step_block. destruct (steps cfg !! s) as [info|]; [|by intros ?%elem_of_nil].
  destruct (pt !! s) as [t|]; [|by intros ?%elem_of_nil].
  intros Hin. repeat (apply elem_of_cons in Hin as [->|Hin]); try by left.
  apply list_elem_of_fmap in Hin as (tank & -> & Htank). right. by exists info.
Qed.

(** The rows that occur in the schedule of a valid build. *)
Lemma schedule_rows cfg N r :
  valid_config cfg = true → (1 ≤ N)%Z →
  (∃ iv, iv ∈ schedule (build cfg N).2 ∧ row iv = r) ↔
  r ∈ step_order cfg ∨
  ∃ s info, s ∈ step_order cfg ∧ steps cfg !! s = Some info ∧ r ∈ tanks info.
Proof.
  intros Hv HN. destruct (valid_pipeline _ Hv) as (pt & Hpt & _). split.
  - intros (iv & Hin & <-). revert Hin.
    rewrite <- (Z2Nat.id N) by lia. generalize (Z.to_nat N) as k. clear N HN.
    induction k as [|k IH].
    + rewrite build_nonpos by done. simpl. by intros ?%elem_of_nil.
    + destruct (cycle_facts cfg Hv pt Hpt (Z.of_nat (S k))) as (sh & _ & Hs & _); [lia|].
      replace (Z.of_nat (S k) - 1)%Z with (Z.of_nat k) in Hs by lia.
      rewrite Hs. intros [Hin|Hin]%elem_of_app; [by apply IH|].
      apply list_elem_of_In, in_flat_map in Hin as (s & Hsin & Hin).
      apply list_elem_of_In in Hsin, Hin.
      destruct (step_block_rows _ _ _ _ _ _ Hin) as [->|(info & Hinfo & Ht)];
        [by left|]. right. by exists s, info.
  - intros [Hr|(s & info & Hs & Hinfo & Hr)].
    + apply list_elem_of_lookup_1 in Hr as [i Hi].
      destruct (emitted_step cfg N 1 i r Hv) as
        (_ & sh & _ & t & _ & _ & _ & _ & _ & _ & Hsu & _); [lia|done|].
      eexists. split; [by eapply list_elem_of_lookup_2|done].
    + apply list_elem_of_lookup_1 in Hs as [i Hi].
      apply list_elem_of_lookup_1 in Hr as [j Hj].
      destruct (emitted_step cfg N 1 i s Hv) as
        (_ & sh & info' & t & _ & _ & _ & Hinfo' & _ & _ & _ & _ & _ & Htk & _);
        [lia|done|].
      assert (info' = info) as -> by congruence.
      eexists. split; [eapply list_elem_of_lookup_2, (Htk _ _ Hj)|done].
Qed.

(** X12. For a valid configuration and at least one cycle, the chart has
    exactly one row for every step of the order and for every tank
    attached to one of them, and no other row; a name that is both a step
    and an attached tank gets a single row. *)
Theorem rows_of_valid_build (cfg : config) (N : Z) :
  valid_config cfg = true →
  (1 ≤ N)%Z →
  NoDup (rows (step_order cfg) (schedule (build cfg N).2)) ∧
  ∀ r, r ∈ rows (step_order cfg) (schedule (build cfg N).2) ↔
    r ∈ step_order cfg ∨
    ∃ s info, s ∈ step_order cfg ∧ steps cfg !! s = Some info ∧ r ∈ tanks info.
Proof.
  intros Hv HN. split; [apply rows_NoDup|].
  intros r. rewrite elem_of_rows. by apply schedule_rows.
Qed.

Lemma rows_of_valid_build_witness :
  valid_config plant = true ∧
  (1 ≤ 2)%Z ∧
  NoDup (rows (step_order plant) (schedule (build plant 2).2)) ∧
  ∀ r, r ∈ rows (step_order plant) (schedule (build plant 2).2) ↔
    r ∈ step_order plant ∨
    ∃ s info, s ∈ step_order plant ∧ steps plant !! s = Some info ∧ r ∈ tanks info.
Proof.
  split; [vm_compute; reflexivity|]. split; [lia|].
  apply (rows_of_valid_build plant 2); [vm_compute; reflexivity|lia].
Defined.

(** X13. In the rows of the chart the steps come first: a row that is a
    step of the order is never listed after a row that is not; and two
    rows of the same kind are listed in increasing order of their names. *)
Theorem rows_steps_first (order : list string) (sched : list interval)
    (i j : nat) (a b : string) :
  rows order sched !! i = Some a →
  rows order sched !! j = Some b →
  (i < j)%nat →
  a ≠ b ∧ (b ∈ order → a ∈ order) ∧ ((a ∈ order ↔ b ∈ order) → String.le a b).
Proof.
  intros Ha Hb Hij.
  assert (row_le order a b) as Hle.
  { pose proof (StronglySorted_merge_sort (row_le order) (remove_dups (row <$> sched)))
      as Hs.
    fold (rows order sched) in Hs.
    revert i j Ha Hb Hij. induction Hs as [|x l Hs IH Hx]; intros i j Ha Hb Hij; [done|].
    destruct i as [|i], j as [|j]; try lia; simpl in *.
    - injection Ha as ->. rewrite Forall_forall in Hx.
      apply Hx. by eapply list_elem_of_lookup_2.
    - eapply (IH i j); [done..|lia]. }
  split; [|split].
  - intros ->. pose proof (rows_NoDup order sched) as Hnd.
    pose proof (NoDup_lookup _ _ _ _ Hnd Ha Hb). lia.
  - by apply row_le_steps_first.
  - by apply row_le_same_group.
Qed.

Lemma rows_steps_first_witness :
  rows (step_order plant) (schedule (build plant 1).2) !! 5%nat = Some "F" ∧
  rows (step_order plant) (schedule (build plant 1).2) !! 6%nat = Some "Tank1" ∧
  (5 < 6)%nat ∧
  "F" ≠ "Tank1" ∧ ("Tank1" ∈ step_order plant → "F" ∈ step_order plant) ∧
  (("F" ∈ step_order plant ↔ "Tank1" ∈ step_order plant) → String.le "F" "Tank1").
Proof.
  split; [vm_compute; reflexivity|]. split; [vm_compute; reflexivity|]. split; [lia|].
  apply (rows_steps_first (step_order plant) (schedule (build plant 1).2) 5 6);
    [vm_compute; reflexivity|vm_compute; reflexivity|lia].
Defined.

(** X14. The rows do not depend on the order in which the set of rows is
    enumerated: sorting any duplicate-free listing of the set of rows of
    the schedule gives the same list. *)
Theorem rows_enumeration_free (order : list string) (sched : list interval)
    (l : list string) :
  NoDup l →
  list_to_set l =@{gset string} list_to_set (row <$> sched) →
  merge_sort (row_le order) l = rows order sched.
Proof.
  intros Hnd Hl. unfold rows.
  apply (StronglySorted_unique (row_le order)).
  - apply StronglySorted_merge_sort; apply _.
  - apply StronglySorted_merge_sort; apply _.
  - rewrite !merge_sort_Permutation.
    apply NoDup_Permutation; [done|apply NoDup_remove_dups|].
    intros r. rewrite elem_of_remove_dups.
    by rewrite <- (elem_of_list_to_set (C:=gset string) r l), Hl, elem_of_list_to_set.
Qed.

Lemma rows_enumeration_free_witness :
  NoDup ["B"; "A"] ∧
  list_to_set ["B"; "A"] =@{gset string}
    list_to_set (row <$> schedule (build scenario 1).2) ∧
  merge_sort (row_le (step_order scenario)) ["B"; "A"]
    = rows (step_order scenario) (schedule (build scenario 1).2).
Proof.
  assert (NoDup ["B"; "A"]) as H1 by (apply (bool_decide_unpack _); reflexivity).
  assert (list_to_set ["B"; "A"] =@{gset string}
            list_to_set (row <$> schedule (build scenario 1).2)) as H2
    by (vm_compute; reflexivity).
  split; [exact H1|]. split; [exact H2|].
  exact (rows_enumeration_free (step_order scenario) (schedule (build scenario 1).2)
           ["B"; "A"] H1 H2).
Defined.

(** * When the cycle loop raises *)

Lemma forallb_first_failure {A} (f : A → bool) (l : list A) :
  forallb f l = false →
  ∃ l1 x l2, l = l1 ++ x :: l2 ∧ forallb f l1 = true ∧ f x = false.
Proof.
  induction l as [|a l IH]; simpl; [done|].
  destruct (f a) eqn:E; simpl.
  - intros (l1 & x & l2 & -> & H1 & Hx)%IH. exists (a :: l1), x, l2.
    simpl. by rewrite E.
  - intros _. by exists [], a, l.
Qed.

Lemma lookups_ok_steps_defined cfg : lookups_ok cfg = true → steps_defined cfg = true.
Proof.
  unfold lookups_ok, steps_defined. rewrite !forallb_forall. intros H s Hs.
  specialize (H s Hs). unfold step_tanks_known in H.
  destruct (steps cfg !! s) eqn:E; [|done]. apply bool_decide_eq_true. eauto.
Qed.

Lemma lookups_ok_ready cfg pt s :
  lookups_ok cfg = true → pipeline_times cfg = Ok pt → s ∈ step_order cfg →
  step_ready cfg pt s.
Proof.
  intros Hl Hpt Hs.
  destruct (steps_defined_pipeline _ (lookups_ok_steps_defined _ Hl)) as (pt' & Hpt' & Hall).
  assert (pt' = pt) as -> by congruence.
  unfold lookups_ok in Hl. rewrite forallb_forall in Hl.
  pose proof (Hl s (proj1 (list_elem_of_In _ _) Hs)) as Hk.
  unfold step_tanks_known in Hk. destruct (steps cfg !! s) as [info|] eqn:E; [|done].
  destruct (Hall s Hs) as [t Ht]. exists info, t. repeat split; try done.
  intros tank ?. by eapply tanks_known_elem.
Qed.

Lemma lookups_ok_build cfg (k : nat) :
  lookups_ok cfg = true →
  (build cfg (Z.of_nat k)).1 = Ok () ∧ tracked cfg (tracker cfg (Z.of_nat k)).
Proof.
  intros Hl.
  destruct (steps_defined_pipeline _ (lookups_ok_steps_defined _ Hl)) as (pt & Hpt & Hall).
  unfold tracker. induction k as [|k [Hok Htr]].
  - rewrite build_nonpos by done. split; [done|].
    intros s Hs. cbn [snd]. rewrite initial_tracker by done. eauto.
  - replace (Z.of_nat (S k)) with (Z.of_nat k + 1)%Z by lia.
    rewrite build_succ by lia.
    destruct (build cfg (Z.of_nat k)) as [r st]. simpl in *. subst r.
    destruct (shift_fold_defined (last_clean_end st) pt (step_order cfg) 0) as [sh Hsh].
    { intros s Hs. split; [by apply Htr|by apply Hall]. }
    destruct (schedule_loop_ok cfg (Z.of_nat k + 1) pt sh (step_order cfg) st)
      as (st' & Hrun & _ & _ & Hlce); [intros; by apply lookups_ok_ready|].
    assert (run_cycle cfg (Z.of_nat k + 1) st = (Ok (), st')) as ->.
    { unfold run_cycle, shift. by rewrite Hpt, bind_lift_ok, bind_get, Hsh, bind_lift_ok. }
    split; [done|]. intros s Hs. destruct (Hall s Hs) as [t Ht].
    simpl. rewrite (Hlce _ _ Hs Ht). eauto.
Qed.

Lemma undefined_step_raises cfg N l1 s l2 :
  step_order cfg = l1 ++ s :: l2 →
  forallb (λ x, bool_decide (is_Some (steps cfg !! x))) l1 = true →
  bool_decide (is_Some (steps cfg !! s)) = false →
  (1 ≤ N)%Z →
  (build cfg N).1 = Raise (KeyError s).
Proof.
  intros Ho Hl1' Hs' HN.
  assert (steps cfg !! s = None) as Hs.
  { apply bool_decide_eq_false in Hs'. by apply eq_None_not_Some. }
  assert (∀ x, x ∈ l1 → is_Some (steps cfg !! x)) as Hl1.
  { intros x Hx. rewrite forallb_forall in Hl1'.
    apply list_elem_of_In, Hl1' in Hx. by apply bool_decide_eq_true in Hx. }
  erewrite build_raise; [done..|].
  assert (pipeline_times cfg = Raise (KeyError s)) as Hpt.
  { unfold pipeline_times. rewrite Ho, foldM_app.
    destruct (pipeline_fold_defined cfg l1 (∅, 0) Hl1) as [acc ->].
    assert (pipeline_step cfg acc s = Raise (KeyError s)) as E.
    { unfold pipeline_step. by rewrite (lookup_key_None _ _ Hs). }
    cbn [mbind result_bind foldM]. by rewrite E. }
  unfold run_cycle. by rewrite Hpt, bind_lift_raise.
Qed.

Lemma unknown_tank_raises cfg N l1 s l2 :
  steps_defined cfg = true →
  step_order cfg = l1 ++ s :: l2 →
  forallb (step_tanks_known cfg) l1 = true →
  step_tanks_known cfg s = false →
  (1 ≤ N)%Z →
  ∃ tank, (build cfg N).1 = Raise (KeyError tank).
Proof.
  intros Hd Ho Hl1 Hs HN.
  destruct (steps_defined_pipeline _ Hd) as (pt & Hpt & Hall).
  destruct (shift_fold_defined (last_clean_end (initial_state cfg)) pt (step_order cfg) 0)
    as [sh Hsh].
  { intros x Hx. split; [|by apply Hall]. rewrite initial_tracker by done. eauto. }
  destruct (Hall s) as [t Ht]; [rewrite Ho; set_solver|].
  unfold step_tanks_known in Hs. destruct (steps cfg !! s) as [info|] eqn:Hinfo.
  2:{ unfold steps_defined in Hd. rewrite forallb_forall in Hd.
      assert (In s (step_order cfg)) as Hin by (rewrite Ho; apply in_elt).
      apply Hd, bool_decide_eq_true in Hin. rewrite Hinfo in Hin. by destruct Hin. }
  destruct (forallb_first_failure _ _ Hs) as (k1 & tank & k2 & Hk & Hk1 & Htank).
  apply bool_decide_eq_false in Htank. apply eq_None_not_Some in Htank.
  destruct (schedule_loop_ok cfg 1 pt sh l1 (initial_state cfg)) as (st1 & Hrun1 & _).
  { intros x Hx. rewrite forallb_forall in Hl1.
    pose proof (Hl1 x (proj1 (list_elem_of_In _ _) Hx)) as Hx'.
    unfold step_tanks_known in Hx'. destruct (steps cfg !! x) as [ix|] eqn:Eix; [|done].
    destruct (Hall x) as [tx Htx]; [rewrite Ho; set_solver|].
    exists ix, tx. repeat split; try done. intros ? ?. by eapply tanks_known_elem. }
  exists tank. erewrite build_raise; [done..|].
  unfold run_cycle, shift. rewrite Hpt, bind_lift_ok, bind_get, Hsh, bind_lift_ok.
  rewrite Ho. rewrite (for_each_ok_app _ _ _ _ _ Hrun1). simpl.
  apply bind_raise.
  apply (schedule_step_raise cfg 1 pt sh s info t k1 tank k2 st1 Hinfo Ht Hk); [|done].
  intros ? ?. by eapply tanks_known_elem.
Qed.

(** X15. A build of at least one cycle returns normally exactly when every
    lookup can succeed: every step of the order is defined and every tank
    it attaches has a cleaning time.  Negative durations and repeated step
    ids never make the loop raise. *)
Theorem build_succeeds_iff (cfg : config) (N : Z) :
  (1 ≤ N)%Z →
  (build cfg N).1 = Ok () ↔ lookups_ok cfg = true.
Proof.
  intros HN. split.
  - intros Hok. destruct (lookups_ok cfg) eqn:Hl; [done|]. exfalso.
    destruct (steps_defined cfg) eqn:Hd.
    + destruct (forallb_first_failure _ _ Hl) as (l1 & s & l2 & Ho & Hl1 & Hs).
      destruct (unknown_tank_raises cfg N l1 s l2 Hd Ho Hl1 Hs HN) as [tank Hr].
      congruence.
    + destruct (forallb_first_failure _ _ Hd) as (l1 & s & l2 & Ho & Hl1 & Hs).
      pose proof (undefined_step_raises cfg N l1 s l2 Ho Hl1 Hs HN). congruence.
  - intros Hl. destruct (lookups_ok_build cfg (Z.to_nat N) Hl) as [Hok _].
    by rewrite Z2Nat.id in Hok by lia.
Qed.

Lemma build_succeeds_iff_witness :
  (1 ≤ 2)%Z ∧
  ((build unknown_tank 2).1 = Ok () ↔ lookups_ok unknown_tank = true).
Proof. split; [lia|]. apply (build_succeeds_iff unknown_tank 2). lia. Defined.

(** * Drawing the bars *)

Lemma app_cons (a : ascii) (s t : string) : String a s +:+ t = String a (s +:+ t).
Proof. done. Qed.

Lemma app_nil_l (s : string) : "" +:+ s = s.
Proof. done. Qed.

Lemma app_snoc (x : string) (a : ascii) (w : string) :
  (x +:+ String a "") +:+ w = x +:+ String a w.
Proof. induction x as [|b x IH]; [done|]. by rewrite !app_cons, IH. Qed.

Lemma all_chars_app p (a b : string) :
  all_chars p (a +:+ b) = all_chars p a && all_chars p b.
Proof.
  induction a as [|x a IH]; [done|]. rewrite app_cons. simpl.
  by rewrite IH, andb_assoc.
Qed.

Lemma starts_with_app (n a b : string) :
  starts_with n a = true → starts_with n (a +:+ b) = true.
Proof.
  revert a. induction n as [|x n IH]; intros a; [by destruct (a +:+ b)|].
  destruct a as [|y a]; [done|]. rewrite app_cons. simpl.
  intros [-> H]%andb_true_iff. by rewrite IH.
Qed.

Lemma contains_cons (n : string) (a : ascii) (s : string) :
  contains n (String a s) = starts_with n (String a s) || contains n s.
Proof. done. Qed.

Lemma contains_app (n a b : string) :
  contains n a = true → contains n (a +:+ b) = true.
Proof.
  induction a as [|x a IH].
  - simpl. rewrite orb_false_r. intros H.
    apply (starts_with_app _ _ b) in H. rewrite app_nil_l in *.
    destruct b; simpl; by rewrite H.
  - rewrite app_cons, !contains_cons.
    intros [H|H]%orb_true_iff.
    + apply (starts_with_app _ _ b) in H. rewrite app_cons in H. by rewrite H.
    + rewrite (IH H). apply orb_true_r.
Qed.

(** A string without the letter T does not contain "Tank". *)
Lemma no_T_no_tank (s : string) :
  all_chars (λ a, negb (Ascii.eqb "T" a)) s = true → contains "Tank" s = false.
Proof.
  induction s as [|a s IH]; [done|]. simpl.
  intros [Ha Hs]%andb_true_iff. rewrite (IH Hs).
  apply negb_true_iff in Ha. by rewrite Ha.
Qed.

(** A space cannot complete an occurrence of "Tank" that starts in [x]. *)
Lemma starts_with_tank_space (x rest : string) :
  starts_with "Tank" (x +:+ String " " rest) = starts_with "Tank" x.
Proof.
  destruct x as [|a1 [|a2 [|a3 [|a4 x]]]];
    rewrite ?app_cons, ?app_nil_l; simpl;
    repeat (match goal with |- context [Ascii.eqb ?c ?a] =>
              is_var a; destruct (Ascii.eqb c a) end; simpl); done.
Qed.

Lemma not_contains_tank_space (x rest : string) :
  contains "Tank" x = false → contains "Tank" (String " " rest) = false →
  contains "Tank" (x +:+ String " " rest) = false.
Proof.
  intros Hx Hr. induction x as [|a x IH]; [done|].
  rewrite contains_cons in Hx. apply orb_false_iff in Hx as [H1 H2].
  rewrite app_cons, contains_cons, (IH H2), orb_false_r.
  rewrite <- app_cons, starts_with_tank_space. done.
Qed.

Lemma pretty_N_go_chars p (x : N) (s : string) :
  (∀ d, p (pretty_N_char d) = true) → all_chars p s = true →
  all_chars p (pretty_N_go x s) = true.
Proof.
  intros Hp. revert s. induction (N.lt_wf_0 x) as [x _ IH]; intros s Hs.
  assert (x = 0 ∨ 0 < x)%N as [->|?] by lia; [by rewrite pretty_N_go_0|].
  rewrite pretty_N_go_step by done. apply IH; [by apply N.div_lt|].
  simpl. by rewrite Hp, Hs.
Qed.

Lemma pretty_Z_chars p (c : Z) :
  (∀ d, p (pretty_N_char d) = true) → p "-"%char = true →
  all_chars p (pretty c) = true.
Proof.
  intros Hp Hd.
  assert (∀ x : positive, all_chars p (pretty x) = true) as Hpos.
  { intros x. unfold pretty, pretty_positive, pretty, pretty_N.
    destruct (decide (N.pos x = 0%N)); [done|]. by apply pretty_N_go_chars. }
  destruct c as [|x|x]; unfold pretty, pretty_Z.
  - pose proof (Hp 0%N) as H0. simpl in *. by rewrite H0.
  - apply Hpos.
  - rewrite app_cons, app_nil_l. simpl. by rewrite Hd, Hpos.
Qed.

Lemma pretty_Z_no_T (c : Z) :
  all_chars (λ a, negb (Ascii.eqb "T" a)) (pretty c) = true.
Proof. apply pretty_Z_chars; [|done]. intros d. unfold pretty_N_char. by repeat case_match. Qed.

(** None of the three labels adds an occurrence of "Tank" to a name. *)
Lemma label_no_tank (name kind : string) (c : Z) :
  contains "Tank" name = false →
  all_chars (λ a, negb (Ascii.eqb "T" a)) kind = true →
  contains "Tank" (name +:+ String " " (kind +:+ " (Cycle " +:+ pretty c +:+ ")")) = false.
Proof.
  intros Hn Hk. apply not_contains_tank_space; [done|].
  apply no_T_no_tank. cbn [all_chars]. rewrite !all_chars_app, Hk, pretty_Z_no_T. done.
Qed.

Lemma graph_not_space (a : ascii) : is_graph a = true → py_isspace a = false.
Proof.
  unfold is_graph, py_isspace. generalize (N_of_ascii a) as n. intros n.
  intros [H1 H2]%andb_true_iff. apply N.leb_le in H1, H2.
  apply orb_false_iff. split; apply andb_false_iff.
  - right. apply N.leb_gt. lia.
  - right. apply N.leb_gt. lia.
Qed.

(** Reading a word of visible characters that a space ends. *)
Lemma split_go_word (cur : option string) (w rest : string) :
  w ≠ "" → all_chars is_graph w = true →
  split_go cur (w +:+ String " " rest) = (default "" cur +:+ w) :: split_go None rest.
Proof.
  revert cur. induction w as [|a w IH]; intros cur Hne Hw; [done|].
  apply andb_true_iff in Hw as [Ha Hw].
  rewrite app_cons. simpl split_go. rewrite (graph_not_space _ Ha).
  destruct w as [|b w].
  - rewrite app_nil_l. simpl. done.
  - rewrite IH by done. simpl default. by rewrite app_snoc.
Qed.

(** Whatever precedes a space, the words after it are still read. *)
Lemma split_go_space (cur : option string) (a rest : string) :
  ∃ pre, split_go cur (a +:+ String " " rest) = pre ++ split_go None rest.
Proof.
  revert cur. induction a as [|x a IH]; intros cur.
  - rewrite app_nil_l. simpl. by exists (option_list cur).
  - rewrite app_cons. simpl split_go. destruct (py_isspace x).
    + destruct (IH None) as [pre ->]. exists (option_list cur ++ pre).
      by rewrite app_assoc.
    + apply IH.
Qed.

Lemma second_split_label (name kind : string) (c : Z) :
  kind ≠ "" → all_chars is_graph kind = true →
  ∃ l w, split_ws (name +:+ String " " (kind +:+ " (Cycle " +:+ pretty c +:+ ")")) = l ∧
    second l = Returns w.
Proof.
  intros Hk1 Hk2. unfold split_ws.
  destruct (split_go_space None name (kind +:+ " (Cycle " +:+ pretty c +:+ ")"))
    as [pre ->].
  change (kind +:+ " (Cycle " +:+ pretty c +:+ ")")
    with (kind +:+ String " " ("(Cycle" +:+ String " " (pretty c +:+ ")"))).
  rewrite (split_go_word None kind) by done.
  rewrite (split_go_word None "(Cycle") by done.
  rewrite !app_nil_l. unfold second.
  destruct pre as [|p1 [|p2 pre]]; simpl; eauto.
Qed.

Lemma second_of_label (name kind : string) (c : Z) :
  name ≠ "" → all_chars is_graph name = true →
  kind ≠ "" → all_chars is_graph kind = true →
  second (split_ws (name +:+ String " " (kind +:+ " (Cycle " +:+ pretty c +:+ ")")))
  = Returns kind.
Proof.
  intros Hn1 Hn2 Hk1 Hk2. unfold split_ws.
  rewrite (split_go_word None name) by done.
  change (kind +:+ " (Cycle " +:+ pretty c +:+ ")")
    with (kind +:+ String " " ("(Cycle" +:+ String " " (pretty c +:+ ")"))).
  by rewrite (split_go_word None kind) by done.
Qed.

Lemma second_of_bare_label (kind : string) (c : Z) :
  kind ≠ "" → all_chars is_graph kind = true →
  second (split_ws ("" +:+ String " " (kind +:+ " (Cycle " +:+ pretty c +:+ ")")))
  = Returns "(Cycle".
Proof.
  intros Hk1 Hk2. unfold split_ws. rewrite app_nil_l. cbn [split_go].
  change (py_isspace " ") with true. cbn [option_list app].
  change (kind +:+ " (Cycle " +:+ pretty c +:+ ")")
    with (kind +:+ String " " ("(Cycle" +:+ String " " (pretty c +:+ ")"))).
  rewrite (split_go_word None kind) by done.
  by rewrite (split_go_word None "(Cycle") by done.
Qed.

(** X16. A step whose name is not empty, is made of visible characters
    below 128 and does not contain "Tank" has its Setup, Operation and
    Cleaning bars drawn in the colour of their phase by both front ends.
    A tank with such a name is drawn like a step's Cleaning, not like a
    tank. *)
Theorem conventional_names_drawn (name : string) (c : Z) (s e : Q) :
  name ≠ "" →
  all_chars is_graph name = true →
  contains "Tank" name = false →
  bar_color (task (setup_task name c s e)) = Returns "lightblue" ∧
  bar_color (task (operation_task name c s e)) = Returns "lightgreen" ∧
  bar_color (task (cleaning_task name c s e)) = Returns "salmon" ∧
  bar_color (task (tank_task name c s e)) = Returns "salmon" ∧
  legend_entry (task (setup_task name c s e)) = Returns ("lightblue", "Setup") ∧
  legend_entry (task (operation_task name c s e)) = Returns ("lightgreen", "Operation") ∧
  legend_entry (task (cleaning_task name c s e)) = Returns ("salmon", "Cleaning") ∧
  legend_entry (task (tank_task name c s e)) = Returns ("salmon", "Cleaning").
Proof.
  intros Hn1 Hn2 Hn3.
  assert (∀ kind, all_chars (λ a, negb (Ascii.eqb "T" a)) kind = true →
    kind ≠ "" → all_chars is_graph kind = true →
    task_type (name +:+ String " " (kind +:+ " (Cycle " +:+ pretty c +:+ ")"))
      = Returns kind ∧
    legend_entry (name +:+ String " " (kind +:+ " (Cycle " +:+ pretty c +:+ ")"))
      = (if String.eqb kind "Setup" then Returns ("lightblue", "Setup")
         else if String.eqb kind "Operation" then Returns ("lightgreen", "Operation")
         else Returns ("salmon", "Cleaning"))) as H.
  { intros kind Hk0 Hk1 Hk2. unfold task_type, legend_entry.
    rewrite (label_no_tank name kind c Hn3 Hk0).
    by rewrite (second_of_label name kind c Hn1 Hn2 Hk1 Hk2). }
  destruct (H "Setup") as [H1 H1']; [done..|].
  destruct (H "Operation") as [H2 H2']; [done..|].
  destruct (H "Cleaning") as [H3 H3']; [done..|].
  unfold bar_color, setup_task, operation_task, cleaning_task, tank_task. simpl task.
  change (name +:+ " Setup (Cycle " +:+ pretty c +:+ ")")
    with (name +:+ String " " ("Setup" +:+ " (Cycle " +:+ pretty c +:+ ")")).
  change (name +:+ " Operation (Cycle " +:+ pretty c +:+ ")")
    with (name +:+ String " " ("Operation" +:+ " (Cycle " +:+ pretty c +:+ ")")).
  change (name +:+ " Cleaning (Cycle " +:+ pretty c +:+ ")")
    with (name +:+ String " " ("Cleaning" +:+ " (Cycle " +:+ pretty c +:+ ")")).
  by rewrite H1, H2, H3, H1', H2', H3'.
Qed.

Lemma conventional_names_drawn_witness :
  "D" ≠ "" ∧
  all_chars is_graph "D" = true ∧
  contains "Tank" "D" = false ∧
  bar_color (task (setup_task "D" 2 58 60)) = Returns "lightblue" ∧
  bar_color (task (operation_task "D" 2 58 60)) = Returns "lightgreen" ∧
  bar_color (task (cleaning_task "D" 2 58 60)) = Returns "salmon" ∧
  bar_color (task (tank_task "D" 2 58 60)) = Returns "salmon" ∧
  legend_entry (task (setup_task "D" 2 58 60)) = Returns ("lightblue", "Setup") ∧
  legend_entry (task (operation_task "D" 2 58 60)) = Returns ("lightgreen", "Operation") ∧
  legend_entry (task (cleaning_task "D" 2 58 60)) = Returns ("salmon", "Cleaning") ∧
  legend_entry (task (tank_task "D" 2 58 60)) = Returns ("salmon", "Cleaning").
Proof.
  split; [discriminate|]. split; [reflexivity|]. split; [reflexivity|].
  apply (conventional_names_drawn "D" 2 58 60); [discriminate|reflexivity|reflexivity].
Defined.

(** X17. Any name that contains "Tank" is drawn as a tank by both front
    ends, whichever interval it labels: a tank named like that gets the
    tank colour, and so do the Setup, Operation and Cleaning bars of a step
    named like that. *)
Theorem tank_in_name_drawn_as_tank (name : string) (c : Z) (s e : Q) :
  contains "Tank" name = true →
  bar_color (task (tank_task name c s e)) = Returns "gray" ∧
  bar_color (task (setup_task name c s e)) = Returns "gray" ∧
  bar_color (task (operation_task name c s e)) = Returns "gray" ∧
  bar_color (task (cleaning_task name c s e)) = Returns "gray" ∧
  legend_entry (task (tank_task name c s e)) = Returns ("gray", "Tank") ∧
  legend_entry (task (setup_task name c s e)) = Returns ("gray", "Tank") ∧
  legend_entry (task (operation_task name c s e)) = Returns ("gray", "Tank") ∧
  legend_entry (task (cleaning_task name c s e)) = Returns ("gray", "Tank").
Proof.
  intros Hn. unfold bar_color, task_type, legend_entry,
    setup_task, operation_task, cleaning_task, tank_task. simpl task.
  rewrite !(contains_app "Tank" name) by done. done.
Qed.

Lemma tank_in_name_drawn_as_tank_witness :
  contains "Tank" "Tank3" = true ∧
  bar_color (task (tank_task "Tank3" 1 12 14)) = Returns "gray" ∧
  bar_color (task (setup_task "Tank3" 1 12 14)) = Returns "gray" ∧
  bar_color (task (operation_task "Tank3" 1 12 14)) = Returns "gray" ∧
  bar_color (task (cleaning_task "Tank3" 1 12 14)) = Returns "gray" ∧
  legend_entry (task (tank_task "Tank3" 1 12 14)) = Returns ("gray", "Tank") ∧
  legend_entry (task (setup_task "Tank3" 1 12 14)) = Returns ("gray", "Tank") ∧
  legend_entry (task (operation_task "Tank3" 1 12 14)) = Returns ("gray", "Tank") ∧
  legend_entry (task (cleaning_task "Tank3" 1 12 14)) = Returns ("gray", "Tank").
Proof.
  split; [reflexivity|].
  apply (tank_in_name_drawn_as_tank "Tank3" 1 12 14). reflexivity.
Defined.

(** X18. A step with the empty name: the second word of each of its tasks
    is "(Cycle", so [schedule_optimization.py] raises [KeyError] when it
    looks up the colour, while [run_simulation] falls through to its last
    branch and draws all three bars as Cleaning. *)
Theorem empty_step_name_drawn (c : Z) (s e : Q) :
  bar_color (task (setup_task "" c s e)) = Throws (PyKeyError "(Cycle") ∧
  bar_color (task (operation_task "" c s e)) = Throws (PyKeyError "(Cycle") ∧
  bar_color (task (cleaning_task "" c s e)) = Throws (PyKeyError "(Cycle") ∧
  legend_entry (task (setup_task "" c s e)) = Returns ("salmon", "Cleaning") ∧
  legend_entry (task (operation_task "" c s e)) = Returns ("salmon", "Cleaning") ∧
  legend_entry (task (cleaning_task "" c s e)) = Returns ("salmon", "Cleaning").
Proof.
  assert (∀ kind, all_chars (λ a, negb (Ascii.eqb "T" a)) kind = true →
    kind ≠ "" → all_chars is_graph kind = true →
    bar_color ("" +:+ String " " (kind +:+ " (Cycle " +:+ pretty c +:+ ")"))
      = Throws (PyKeyError "(Cycle") ∧
    legend_entry ("" +:+ String " " (kind +:+ " (Cycle " +:+ pretty c +:+ ")"))
      = Returns ("salmon", "Cleaning")) as H.
  { intros kind Hk0 Hk1 Hk2. unfold bar_color, task_type, legend_entry.
    rewrite (label_no_tank "" kind c eq_refl Hk0).
    by rewrite (second_of_bare_label kind c Hk1 Hk2). }
  destruct (H "Setup") as [H1 H1']; [done..|].
  destruct (H "Operation") as [H2 H2']; [done..|].
  destruct (H "Cleaning") as [H3 H3']; [done..|].
  unfold setup_task, operation_task, cleaning_task. simpl task.
  change ("" +:+ " Setup (Cycle " +:+ pretty c +:+ ")")
    with ("" +:+ String " " ("Setup" +:+ " (Cycle " +:+ pretty c +:+ ")")).
  change ("" +:+ " Operation (Cycle " +:+ pretty c +:+ ")")
    with ("" +:+ String " " ("Operation" +:+ " (Cycle " +:+ pretty c +:+ ")")).
  change ("" +:+ " Cleaning (Cycle " +:+ pretty c +:+ ")")
    with ("" +:+ String " " ("Cleaning" +:+ " (Cycle " +:+ pretty c +:+ ")")).
  by rewrite H1, H2, H3, H1', H2', H3'.
Qed.

(** ** What the cycle loop can append, for any configuration *)

Lemma keeps_bind P {A B} (m : M A) (f : A → M B) :
  keeps P m → (∀ a, keeps P (f a)) → keeps P (m ≫= f).
Proof.
  intros Hm Hf st Hst. unfold mbind, M_bind. specialize (Hm st Hst).
  destruct (m st) as [[a|e] st']; [by apply Hf|done].
Qed.

Lemma keeps_lift P {A} (r : result A) : keeps P (lift r).
Proof. by intros st. Qed.

Lemma keeps_append P iv : P iv → keeps P (append iv).
Proof. intros Hiv st Hst. simpl. apply Forall_app. split; [done|]. by constructor. Qed.

Lemma keeps_for_each P {A} (l : list A) (body : A → M unit) :
  (∀ x, keeps P (body x)) → keeps P (for_each l body).
Proof.
  intros Hb. induction l as [|x l IH]; [by intros st|].
  simpl. apply keeps_bind; [apply Hb|]. intros _. apply IH.
Qed.

Lemma keeps_schedule_step cfg cycle pt sh step :
  keeps labelled (schedule_step cfg cycle pt sh step).
Proof.
  unfold schedule_step.
  apply keeps_bind; [apply keeps_lift|]. intros info.
  apply keeps_bind; [apply keeps_lift|]. intros t.
  apply keeps_bind; [apply keeps_append|].
  { exists step, "Setup", cycle. split; [set_solver|done]. }
  intros _. apply keeps_bind; [apply keeps_append|].
  { exists step, "Operation", cycle. split; [set_solver|done]. }
  intros _. apply keeps_bind; [apply keeps_append|].
  { exists step, "Cleaning", cycle. split; [set_solver|done]. }
  intros _. apply keeps_bind; [|by intros _ st].
  apply keeps_for_each. intros tank. unfold schedule_tank.
  apply keeps_bind; [apply keeps_lift|]. intros d. apply keeps_append.
  exists tank, "Cleaning", cycle. split; [set_solver|done].
Qed.

Lemma build_labelled cfg N : Forall labelled (schedule (build cfg N).2).
Proof.
  unfold build. apply keeps_for_each; [|by constructor].
  intros cycle. unfold run_cycle.
  apply keeps_bind; [apply keeps_lift|]. intros pt.
  apply keeps_bind; [by intros st|]. intros lce.
  apply keeps_bind; [apply keeps_lift|]. intros sh.
  apply keeps_for_each. intros step. apply keeps_schedule_step.
Qed.

Lemma legend_entry_labelled iv :
  labelled iv → ∃ r, legend_entry (task iv) = Returns r.
Proof.
  intros (name & kind & c & Hkind & ->). unfold legend_entry.
  destruct (contains "Tank" _); [eauto|].
  destruct (second_split_label name kind c) as (l & w & -> & ->).
  - intros ->. repeat (apply elem_of_cons in Hkind as [?|Hkind]); try done.
    by apply elem_of_nil in Hkind.
  - repeat (apply elem_of_cons in Hkind as [->|Hkind]); try done.
    by apply elem_of_nil in Hkind.
  - simpl. repeat case_match; eauto.
Qed.

Lemma add_traces_labelled added sched :
  Forall labelled sched → ∃ trs, add_traces added sched = Returns trs.
Proof.
  intros H. revert added. induction H as [|iv sched Hiv _ IH]; intros added; [by eexists|].
  simpl. destruct (legend_entry_labelled iv Hiv) as [[color name] ->]. simpl.
  destruct (IH (if bool_decide (name ∉ added) then {[name]} ∪ added else added))
    as [trs ->]. simpl. eauto.
Qed.

Lemma add_traces_draws added sched trs :
  add_traces added sched = Returns trs → Forall2 draws sched trs.
Proof.
  revert added trs. induction sched as [|iv sched IH]; intros added trs; simpl.
  - intros [= <-]. constructor.
  - destruct (legend_entry (task iv)) as [[color name]|]; [|done]. simpl.
    destruct (add_traces _ sched) as [trs'|] eqn:E; [|done]. simpl.
    intros [= <-]. constructor; [done|]. by eapply IH.
Qed.

(** X19. [run_simulation] can draw whatever the cycle loop has appended,
    for every configuration and number of cycles: classifying a task never
    fails on a label of the loop, and there is one bar per interval, on the
    interval's row, starting at its start and as long as it lasts. *)
Theorem every_build_is_drawn (cfg : config) (N : Z) :
  ∃ trs,
    traces (schedule (build cfg N).2) = Returns trs ∧
    Forall2 draws (schedule (build cfg N).2) trs.
Proof.
  destruct (add_traces_labelled ∅ _ (build_labelled cfg N)) as [trs Htrs].
  exists trs. split; [done|]. by eapply add_traces_draws.
Qed.

Lemma add_traces_legend added sched trs i tr :
  add_traces added sched = Returns trs → trs !! i = Some tr →
  (trace_showlegend tr = true ↔
   ((trace_name tr ∉ added) ∧
    ∀ j tr', (j < i)%nat → trs !! j = Some tr' → trace_name tr' ≠ trace_name tr)).
Proof.
  revert added trs i. induction sched as [|iv sched IH]; intros added trs i; simpl.
  - by intros [= <-].
  - destruct (legend_entry (task iv)) as [[color name]|]; [|done]. simpl.
    destruct (add_traces _ sched) as [trs'|] eqn:E; [|done]. simpl.
    intros [= <-]. destruct i as [|i]; simpl.
    + intros [= <-]. simpl. rewrite bool_decide_eq_true. split.
      * intros H. split; [done|]. intros j tr' Hj. lia.
      * by intros [H _].
    + intros Htr. rewrite (IH _ _ _ E Htr). split.
      * intros [Hnin Hprev].
        assert ((trace_name tr ∉ added) ∧ name ≠ trace_name tr) as [H1 H2].
        { case_bool_decide.
          - apply not_elem_of_union in Hnin as [Hn1 Hn2]. split; [done|].
            intros ->. by apply Hn1, elem_of_singleton.
          - split; [done|]. intros ->. done. }
        split; [done|]. intros [|j] tr' Hj; simpl.
        -- by intros [= <-].
        -- apply Hprev. lia.
      * intros [Hnin Hprev]. split.
        -- pose proof (Hprev 0%nat _ ltac:(lia) eq_refl) as H0. simpl in H0.
           case_bool_decide; [|done]. apply not_elem_of_union. split; [|done].
           intros ?%elem_of_singleton. congruence.
        -- intros j tr' Hj Htr'. apply (Hprev (S j)); [lia|done].
Qed.

(** X20. In [run_simulation] a bar shows its legend entry exactly when no
    earlier bar has the same legend name: every legend name in use appears
    in the legend once, at the first bar that carries it. *)
Theorem legend_at_first_bar (sched : list interval) (trs : list trace)
    (i : nat) (tr : trace) :
  traces sched = Returns trs →
  trs !! i = Some tr →
  (trace_showlegend tr = true ↔
   ∀ j tr', (j < i)%nat → trs !! j = Some tr' → trace_name tr' ≠ trace_name tr).
Proof.
  intros Htrs Htr. rewrite (add_traces_legend ∅ sched trs i tr Htrs Htr).
  split; [by intros [_ H]|]. intros H. split; [apply not_elem_of_empty|done].
Qed.

Lemma legend_at_first_bar_witness :
  traces (schedule (build scenario 1).2) = Returns
    [ Trace "A" 3 0 "lightblue" "Setup" true;
      Trace "A" 5 3 "lightgreen" "Operation" true;
      Trace "A" 1 8 "salmon" "Cleaning" true;
      Trace "B" 2 6 "lightblue" "Setup" false;
      Trace "B" 4 8 "lightgreen" "Operation" false;
      Trace "B" 1 12 "salmon" "Cleaning" false ] ∧
  [ Trace "A" 3 0 "lightblue" "Setup" true;
    Trace "A" 5 3 "lightgreen" "Operation" true;
    Trace "A" 1 8 "salmon" "Cleaning" true;
    Trace "B" 2 6 "lightblue" "Setup" false;
    Trace "B" 4 8 "lightgreen" "Operation" false;
    Trace "B" 1 12 "salmon" "Cleaning" false ] !! 4%nat
    = Some (Trace "B" 4 8 "lightgreen" "Operation" false) ∧
  (trace_showlegend (Trace "B" 4 8 "lightgreen" "Operation" false) = true ↔
   ∀ j tr', (j < 4)%nat →
     [ Trace "A" 3 0 "lightblue" "Setup" true;
       Trace "A" 5 3 "lightgreen" "Operation" true;
       Trace "A" 1 8 "salmon" "Cleaning" true;
       Trace "B" 2 6 "lightblue" "Setup" false;
       Trace "B" 4 8 "lightgreen" "Operation" false;
       Trace "B" 1 12 "salmon" "Cleaning" false ] !! j = Some tr' →
     trace_name tr' ≠ trace_name (Trace "B" 4 8 "lightgreen" "Operation" false)).
Proof.
  split; [vm_compute; reflexivity|]. split; [reflexivity|].
  apply (legend_at_first_bar (schedule (build scenario 1).2));
    [vm_compute; reflexivity|reflexivity].
Defined.

(** ** Names that [schedule_optimization.py] can draw *)

Lemma keeps_bind_lift P {A B} (r : result A) (f : A → M B) :
  (∀ a, r = Ok a → keeps P (f a)) → keeps P (lift r ≫= f).
Proof.
  intros Hf st Hst. destruct r as [a|e]; [|done].
  rewrite bind_lift_ok. by apply Hf.
Qed.

Lemma keeps_for_each_elem P {A} (l : list A) (body : A → M unit) :
  (∀ x, x ∈ l → keeps P (body x)) → keeps P (for_each l body).
Proof.
  induction l as [|x l IH]; intros Hb; [by intros st|].
  simpl. apply keeps_bind; [apply Hb; by left|]. intros _.
  apply IH. intros y Hy. apply Hb. by right.
Qed.

Lemma lookup_key_Ok {V} (d : gmap string V) k v : lookup_key d k = Ok v → d !! k = Some v.
Proof. unfold lookup_key. destruct (d !! k); congruence. Qed.

Lemma build_well_named cfg N :
  names_ok cfg = true → Forall well_named (schedule (build cfg N).2).
Proof.
  intros Hn. unfold names_ok in Hn. rewrite forallb_forall in Hn.
  unfold build. apply keeps_for_each; [|by constructor].
  intros cycle. unfold run_cycle.
  apply keeps_bind; [apply keeps_lift|]. intros pt.
  apply keeps_bind; [by intros st|]. intros lce.
  apply keeps_bind; [apply keeps_lift|]. intros sh.
  apply keeps_for_each_elem. intros step Hstep.
  apply list_elem_of_In, Hn in Hstep. apply andb_true_iff in Hstep as [Hs Hk].
  unfold schedule_step.
  apply keeps_bind_lift. intros info Hinfo%lookup_key_Ok. rewrite Hinfo in Hk.
  apply keeps_bind; [apply keeps_lift|]. intros t.
  apply keeps_bind; [apply keeps_append|].
  { exists step, "Setup", cycle. split; [done|]. split; [|done]. by left. }
  intros _. apply keeps_bind; [apply keeps_append|].
  { exists step, "Operation", cycle. split; [done|]. split; [|done]. right. by left. }
  intros _. apply keeps_bind; [apply keeps_append|].
  { exists step, "Cleaning", cycle. split; [done|]. split; [|done]. do 2 right. by left. }
  intros _. apply keeps_bind; [|by intros _ st].
  apply keeps_for_each_elem. intros tank Htank. unfold schedule_tank.
  apply keeps_bind; [apply keeps_lift|]. intros d. apply keeps_append.
  rewrite forallb_forall in Hk. apply list_elem_of_In, Hk in Htank.
  exists tank, "Cleaning", cycle. split; [done|]. split; [|done]. do 2 right. by left.
Qed.

(** X21. When every step of the order and every attached tank has a name
    that is not empty and made of visible characters below 128, the loop of
    [schedule_optimization.py] finds a colour for every interval the cycle
    loop appends: the tank colour when the name contains "Tank", the colour
    of the phase otherwise. *)
Theorem well_named_build_is_colored (cfg : config) (N : Z) (j : nat) (iv : interval) :
  names_ok cfg = true →
  schedule (build cfg N).2 !! j = Some iv →
  ∃ color,
    bar_color (task iv) = Returns color ∧
    color ∈ ["lightblue"; "lightgreen"; "salmon"; "gray"].
Proof.
  intros Hn Hj.
  pose proof (build_well_named cfg N Hn) as Hall. rewrite Forall_lookup in Hall.
  destruct (Hall _ _ Hj) as (name & kind & c & Hname & Hkind & ->).
  apply andb_true_iff in Hname as [Hne Hg]. apply negb_true_iff, String.eqb_neq in Hne.
  destruct (contains "Tank" name) eqn:Hc.
  - exists "gray". split; [|by do 3 right; left].
    unfold bar_color, task_type. by rewrite (contains_app "Tank" name).
  - assert (all_chars (λ a, negb (Ascii.eqb "T" a)) kind = true ∧ kind ≠ "" ∧
            all_chars is_graph kind = true ∧
            ∃ color, colors !! kind = Some color ∧
              color ∈ ["lightblue"; "lightgreen"; "salmon"; "gray"])
      as (Hk0 & Hk1 & Hk2 & color & Hcol & Hin).
    { repeat (apply elem_of_cons in Hkind as [->|Hkind]);
        [..|by apply elem_of_nil in Hkind].
      - repeat split; try done. exists "lightblue". split; [done|by left].
      - repeat split; try done. exists "lightgreen". split; [done|by right; left].
      - repeat split; try done. exists "salmon". split; [done|by do 2 right; left]. }
    exists color. split; [|done]. unfold bar_color, task_type.
    rewrite (label_no_tank name kind c Hc Hk0).
    rewrite (second_of_label name kind c Hne Hg Hk1 Hk2). simpl. by rewrite Hcol.
Qed.

Lemma well_named_build_is_colored_witness :
  names_ok plant = true ∧
  schedule (build plant 1).2 !! 9%nat
    = Some (Interval "Tank4 Cleaning (Cycle 1)" 12 14 "Tank4") ∧
  ∃ color,
    bar_color (task (Interval "Tank4 Cleaning (Cycle 1)" 12 14 "Tank4")) = Returns color ∧
    color ∈ ["lightblue"; "lightgreen"; "salmon"; "gray"].
Proof.
  split; [vm_compute; reflexivity|]. split; [vm_compute; reflexivity|].
  apply (well_named_build_is_colored plant 1 9); vm_compute; reflexivity.
Defined.

(** * The form of the app *)

(** A dictionary filled by a loop whose value depends on the key only. *)
Lemma foldl_insert_lookup {V} (f : string → V) (l : list string) (d : gmap string V) k :
  foldl (λ d x, <[x := f x]> d) d l !! k = if decide (k ∈ l) then Some (f k) else d !! k.
Proof.
  revert d. induction l as [|x l IH]; intros d.
  - case_decide as H; [by apply elem_of_nil in H|done].
  - cbn [foldl]. rewrite IH.
    destruct (decide (k ∈ l)) as [Hin|Hnin]; case_decide as H; try done.
    + destruct H. by right.
    + apply elem_of_cons in H as [->|?]; [apply lookup_insert_eq|done].
    + apply lookup_insert_ne. intros ->. apply H. by left.
Qed.

Lemma app_steps_lookup number_input text_input order step :
  step ∈ order →
  app_steps number_input text_input order !! step =
    Some (StepInfo (number_input (step +:+ "_setup"))
                   (number_input (step +:+ "_operation"))
                   (number_input (step +:+ "_cleaning"))
                   (parse_tanks (text_input (step +:+ "_tanks")))).
Proof.
  intros Hs. unfold app_steps.
  rewrite (foldl_insert_lookup (λ step, StepInfo _ _ _ _)). by rewrite decide_True.
Qed.

Lemma elem_of_all_tanks steps tank :
  tank ∈ all_tanks steps ↔ ∃ s info, steps !! s = Some info ∧ tank ∈ tanks info.
Proof.
  unfold all_tanks. rewrite merge_sort_Permutation, elem_of_remove_dups.
  rewrite list_elem_of_In, in_flat_map. split.
  - intros (info & Hin%list_elem_of_In & Ht%list_elem_of_In).
    apply list_elem_of_fmap in Hin as ([s info'] & -> & Hin).
    apply elem_of_map_to_list in Hin. eauto.
  - intros (s & info & Hs & Ht). exists info. split; apply list_elem_of_In; [|done].
    apply list_elem_of_fmap. exists (s, info). split; [done|].
    by apply elem_of_map_to_list.
Qed.

Lemma app_tank_lookup number_input steps s info tank :
  steps !! s = Some info → tank ∈ tanks info →
  app_tank_cleaning_time number_input steps !! tank
    = Some (number_input (tank +:+ "_time")).
Proof.
  intros Hs Ht. unfold app_tank_cleaning_time.
  rewrite (foldl_insert_lookup (λ tank, number_input (tank +:+ "_time"))).
  rewrite decide_True; [done|]. apply elem_of_all_tanks. eauto.
Qed.

Lemma app_config_lookups_ok order_text number_input text_input :
  lookups_ok (app_config order_text number_input text_input) = true.
Proof.
  unfold lookups_ok. apply forallb_forall. intros s Hs%list_elem_of_In.
  unfold step_tanks_known. simpl in *.
  rewrite (app_steps_lookup _ _ _ _ Hs).
  apply forallb_forall. intros tank Ht%list_elem_of_In. apply bool_decide_eq_true.
  simpl. erewrite app_tank_lookup; [eauto|by apply app_steps_lookup|done].
Qed.

(** X22. The configuration the app builds from its form never makes the
    cycle loop raise, whatever the user types and for every number of
    cycles: every step of the order gets an entry in [steps], and every
    tank of every step gets an entry in [tank_cleaning_time]. *)
Theorem app_config_never_raises (order_text : string) (number_input : string → Q)
    (text_input : string → string) (N : Z) :
  lookups_ok (app_config order_text number_input text_input) = true ∧
  (build (app_config order_text number_input text_input) N).1 = Ok ().
Proof.
  pose proof (app_config_lookups_ok order_text number_input text_input) as Hl.
  split; [done|]. destruct (Z.le_gt_cases N 0) as [HN|HN].
  - by rewrite build_nonpos.
  - destruct (lookups_ok_build _ (Z.to_nat N) Hl) as [Hok _].
    by rewrite Z2Nat.id in Hok by lia.
Qed.

(** X23. When the step ids typed into the app are distinct and no widget
    holds a negative number, the configuration the app builds is valid. *)
Theorem app_config_valid (order_text : string) (number_input : string → Q)
    (text_input : string → string) :
  NoDup (split_on "," order_text) →
  (∀ key, 0 <= number_input key) →
  valid_config (app_config order_text number_input text_input) = true.
Proof.
  intros Hnd Hnn. unfold valid_config. apply andb_true_iff. split.
  - by apply bool_decide_eq_true.
  - apply forallb_forall. intros s Hs%list_elem_of_In.
    unfold valid_step. simpl in *. rewrite (app_steps_lookup _ _ _ _ Hs). simpl.
    assert (∀ q, 0 <= q → nonneg q = true) as Hq.
    { intros q. unfold nonneg. apply Qle_bool_iff. }
    rewrite !Hq by apply Hnn. simpl.
    apply forallb_forall. intros tank Ht%list_elem_of_In.
    erewrite app_tank_lookup; [|by apply app_steps_lookup|done].
    apply Hq, Hnn.
Qed.

Lemma app_config_valid_witness :
  NoDup (split_on "," "A,B,C") ∧
  (∀ key : string, 0 <= (λ _ : string, 5) key) ∧
  valid_config (app_config "A,B,C" (λ _, 5) (λ _, "Tank1,Tank2")) = true.
Proof.
  assert (NoDup (split_on "," "A,B,C")) as H1 by (apply (bool_decide_unpack _); reflexivity).
  assert (∀ key : string, 0 <= (λ _ : string, 5) key) as H2 by (intros _; vm_compute; discriminate).
  split; [exact H1|]. split; [exact H2|].
  exact (app_config_valid "A,B,C" (λ _, 5) (λ _, "Tank1,Tank2") H1 H2).
Defined.

Lemma split_on_cons sep a s :
  split_on sep (String a s) =
    if Ascii.eqb a sep then "" :: split_on sep s
    else match split_on sep s with
         | w :: ws => String a w :: ws
         | [] => [String a ""]
         end.
Proof. done. Qed.

Lemma split_on_nonempty sep s : split_on sep s ≠ [].
Proof.
  induction s as [|a s IH]; [done|]. rewrite split_on_cons.
  destruct (Ascii.eqb a sep); [done|]. by destruct (split_on sep s).
Qed.

Lemma split_on_no_sep sep s :
  Forall (λ w, all_chars (λ a, negb (Ascii.eqb a sep)) w = true) (split_on sep s).
Proof.
  induction s as [|a s IH]; [by repeat constructor|]. rewrite split_on_cons.
  destruct (Ascii.eqb a sep) eqn:E; [by constructor|].
  pose proof (split_on_nonempty sep s) as Hne.
  destruct (split_on sep s) as [|w ws]; [done|].
  apply Forall_cons in IH as [Hw Hws]. constructor; [|done].
  simpl. by rewrite E, Hw.
Qed.

(** X24. [text.split(",")] never gives an empty list (an empty text gives
    the single piece [""]), no piece contains a comma, and the pieces put
    back together with commas are the text. *)
Theorem split_on_spec (sep : ascii) (s : string) :
  split_on sep s ≠ [] ∧
  split_on sep "" = [""] ∧
  Forall (λ w, all_chars (λ a, negb (Ascii.eqb a sep)) w = true) (split_on sep s) ∧
  join_with sep (split_on sep s) = s.
Proof.
  split; [apply split_on_nonempty|]. split; [done|]. split; [apply split_on_no_sep|].
  induction s as [|a s IH]; [done|]. rewrite split_on_cons.
  pose proof (split_on_nonempty sep s) as Hne.
  destruct (Ascii.eqb a sep) eqn:E.
  - apply Ascii.eqb_eq in E as ->.
    destruct (split_on sep s) as [|w ws]; [done|].
    change (join_with sep ("" :: w :: ws)) with (String sep (join_with sep (w :: ws))).
    by rewrite IH.
  - destruct (split_on sep s) as [|w [|w' ws]]; [done|..].
    + simpl in *. by rewrite IH.
    + change (join_with sep (String a w :: w' :: ws))
        with (String a (w +:+ String sep (join_with sep (w' :: ws)))).
      change (join_with sep (w :: w' :: ws))
        with (w +:+ String sep (join_with sep (w' :: ws))) in IH.
      by rewrite IH.
Qed.

Lemma lstrip_chars p s : all_chars p s = true → all_chars p (lstrip s) = true.
Proof.
  induction s as [|a s IH]; [done|]. simpl. intros [Ha Hs]%andb_true_iff.
  destruct (py_isspace a); [by apply IH|]. simpl. by rewrite Ha, Hs.
Qed.

Lemma lstrip_first s a : first_char (lstrip s) = Some a → py_isspace a = false.
Proof.
  induction s as [|b s IH]; [done|]. simpl.
  destruct (py_isspace b) eqn:E; [done|]. simpl. by intros [= <-].
Qed.

Lemma rstrip_cons a s :
  rstrip (String a s) =
    match rstrip s with
    | "" => if py_isspace a then "" else String a ""
    | r => String a r
    end.
Proof. done. Qed.

Lemma rstrip_chars p s : all_chars p s = true → all_chars p (rstrip s) = true.
Proof.
  induction s as [|a s IH]; [done|]. cbn [all_chars]. intros [Ha Hs]%andb_true_iff.
  rewrite rstrip_cons. specialize (IH Hs). destruct (rstrip s) as [|b r].
  - destruct (py_isspace a); [done|]. simpl. by rewrite Ha.
  - cbn [all_chars] in *. by rewrite Ha, IH.
Qed.

Lemma rstrip_first s a :
  first_char (rstrip s) = Some a → first_char s = Some a.
Proof.
  destruct s as [|b s]; [done|]. rewrite rstrip_cons.
  destruct (rstrip s); [destruct (py_isspace b)|]; done.
Qed.

Lemma rstrip_last s a : last_char (rstrip s) = Some a → py_isspace a = false.
Proof.
  induction s as [|b s IH]; [done|]. rewrite rstrip_cons.
  destruct (rstrip s) as [|c r] eqn:E.
  - destruct (py_isspace b) eqn:Hb; [done|]. simpl. by intros [= <-].
  - intros H. apply IH. exact H.
Qed.

(** Cutting a text keeps what holds of all its characters. *)
Lemma split_on_chars p sep s :
  all_chars p s = true → Forall (λ w, all_chars p w = true) (split_on sep s).
Proof.
  induction s as [|a s IH]; [by repeat constructor|].
  cbn [all_chars]. intros [Ha Hs]%andb_true_iff. rewrite split_on_cons.
  specialize (IH Hs). destruct (Ascii.eqb a sep); [by constructor|].
  pose proof (split_on_nonempty sep s) as Hne.
  destruct (split_on sep s) as [|w ws]; [done|].
  apply Forall_cons in IH as [Hw Hws]. constructor; [|done].
  simpl. by rewrite Ha, Hw.
Qed.

(** X25. When the text of a step's tank field is made of characters
    below 128, where [py_isspace] is all the white space there is, every
    tank name the app reads from it is made of such characters, is not
    empty, contains no comma and neither starts nor ends with white
    space. *)
Theorem parse_tanks_clean (text : string) (i : nat) (t : string) :
  all_chars is_ascii text = true →
  parse_tanks text !! i = Some t →
  t ≠ "" ∧
  all_chars is_ascii t = true ∧
  all_chars (λ a, negb (Ascii.eqb a ",")) t = true ∧
  (∃ a, first_char t = Some a ∧ py_isspace a = false) ∧
  (∃ a, last_char t = Some a ∧ py_isspace a = false).
Proof.
  intros Hascii Hi. apply list_elem_of_lookup_2 in Hi. unfold parse_tanks in Hi.
  apply list_elem_of_filter in Hi as [Hne Hin].
  apply list_elem_of_fmap in Hin as (w & -> & Hw).
  pose proof (split_on_no_sep "," text) as Hall.
  rewrite Forall_forall in Hall. specialize (Hall w Hw).
  pose proof (split_on_chars is_ascii "," text Hascii) as Hasc.
  rewrite Forall_forall in Hasc. specialize (Hasc w Hw).
  split; [done|]. split; [by apply rstrip_chars, lstrip_chars|].
  split; [by apply rstrip_chars, lstrip_chars|].
  unfold strip in *. split.
  - destruct (rstrip (lstrip w)) as [|a r] eqn:E; [done|]. exists a. split; [done|].
    apply (lstrip_first w), rstrip_first. by rewrite E.
  - destruct (last_char (rstrip (lstrip w))) as [a|] eqn:E.
    + exists a. split; [done|]. by eapply rstrip_last.
    + exfalso. clear -Hne E. induction (rstrip (lstrip w)) as [|a [|b r] IH]; try done.
      by apply IH.
Qed.

Lemma parse_tanks_clean_witness :
  all_chars is_ascii " Tank1 , ,Tank 2,  " = true ∧
  parse_tanks " Tank1 , ,Tank 2,  " !! 1%nat = Some "Tank 2" ∧
  "Tank 2" ≠ "" ∧
  all_chars is_ascii "Tank 2" = true ∧
  all_chars (λ a, negb (Ascii.eqb a ",")) "Tank 2" = true ∧
  (∃ a, first_char "Tank 2" = Some a ∧ py_isspace a = false) ∧
  (∃ a, last_char "Tank 2" = Some a ∧ py_isspace a = false).
Proof.
  split; [vm_compute; reflexivity|]. split; [vm_compute; reflexivity|].
  apply (parse_tanks_clean " Tank1 , ,Tank 2,  " 1); vm_compute; reflexivity.
Defined.
